(** * skysim.airglow: airmass, scattering factors and the airglow flux pipeline

    A shallow embedding of [skysim/airglow.py].

    Numbers.  numpy's float64 values are embedded as mathematical reals
    ([R]): [+], [-], [*], [np.sin], [np.exp], [np.log10] and [**] stand for
    the exact real operations, so rounding, overflow and NaN are outside
    the main development.  A statement below about a numerical value is a
    statement about the formula the code evaluates, unless it is made in
    module [F64], which evaluates the airmass in binary64 near the zenith
    and shows where rounding parts the code from the formula.

    Arrays.  A numpy array is a shape together with its elements in
    row-major (C) order; a Python scalar or 0-d array has the empty shape
    and one element. *)

From Stdlib Require Import PrimFloat String Reals Lra Lia List Arith Bool
  Sorted.
Import ListNotations.
Set Warnings "-inexact-float".
Open Scope R_scope.

(** ** numpy arrays *)

Record ndarray (A : Type) : Type := NDArray {
  shape : list nat;
  data : list A
}.
Arguments NDArray {A} shape data.
Arguments shape {A} _.
Arguments data {A} _.

(** Number of elements a shape describes: the product of its axes. *)
Fixpoint prod_shape (s : list nat) : nat :=
  match s with
  | [] => 1%nat
  | d :: r => (d * prod_shape r)%nat
  end.

(** [a.size] *)
Definition size {A} (a : ndarray A) : nat := prod_shape (shape a).

(** The invariant every numpy array satisfies. *)
Definition wf {A} (a : ndarray A) : Prop :=
  length (data a) = prod_shape (shape a).

(** A Python float seen through [np.asarray]: a 0-d array. *)
Definition scalar {A} (x : A) : ndarray A := NDArray [] [x].

(** [a.item()] of a one-element array. *)
Definition item (a : ndarray R) : R := hd 0 (data a).

(** Elementwise application of a unary function (a numpy ufunc, or a binary
    operator one of whose operands is a Python scalar). *)
Definition np_map {A B} (f : A -> B) (a : ndarray A) : ndarray B :=
  NDArray (shape a) (map f (data a)).

(** ** Scalar kernels *)

(** [np.deg2rad]: x * pi / 180. *)
Definition deg2rad (x : R) : R := x * (PI / 180).

(** [x ** y] for floats.  For a positive base this is exp (y * ln x); a zero
    base gives 1 for a zero exponent and 0 for a positive one.  (numpy
    yields inf for a negative exponent of zero and NaN for a fractional
    power of a negative base; neither has a real counterpart.  The code
    raises two bases: the one of the airmass, which lies in [0.028, 1],
    see [base_bounds], and the table's transmission, raised to an airmass,
    which is at least 1.) *)
Definition float_power (x y : R) : R :=
  if Req_dec_T x 0 then (if Req_dec_T y 0 then 1 else 0) else Rpower x y.

(** [np.log10] *)
Definition log10 (x : R) : R := ln x / ln 10.

(** ** airmass_ag *)

Definition np_asarray {A} (z : ndarray A) : ndarray A := z.

(** [(1 - 0.972 * np.sin(np.deg2rad(z)) ** 2) ** -0.5], one ufunc at a time. *)
Definition airmass_ag (z : ndarray R) : ndarray R :=
  let z := np_asarray z in
  np_map (fun b => float_power b (-0.5))
    (np_map (fun t => 1 - t)
       (np_map (fun q => 0.972 * q)
          (np_map (fun s => s ^ 2)
             (np_map sin (np_map deg2rad z))))).

(** ** airglow_scattering *)

Definition airglow_scattering (z : ndarray R) : ndarray R * ndarray R :=
  let x := np_map log10 (airmass_ag z) in
  let fR := np_map (fun t => t - 0.146) (np_map (fun t => 1.669 * t) x) in
  let fM := np_map (fun t => t - 0.318) (np_map (fun t => 1.732 * t) x) in
  (fR, fM).

(** ** Exceptions, the store and the computation monad

    [get_airglow] reads a table that every caller shares and updates one
    array in place ([tau0 += ...]).  Both live in a store of arrays that
    is addressed by references.  An array the function creates and never
    updates in place is carried by value. *)

Inductive exn : Type :=
| AssertionError (msg : option string)
| ValueError (msg : string)
| IndexError (msg : string)
| LookupError (msg : string).

Inductive result (A : Type) : Type :=
| Ok (a : A)
| Raise (e : exn).
Arguments Ok {A} a.
Arguments Raise {A} e.

Definition ref : Type := nat.
Definition store : Type := list (ndarray R).
Definition M (A : Type) : Type := store -> result A * store.

Definition ret {A} (a : A) : M A := fun h => (Ok a, h).
Definition raise {A} (e : exn) : M A := fun h => (Raise e, h).
Definition bind {A B} (m : M A) (k : A -> M B) : M B :=
  fun h =>
    match m h with
    | (Ok a, h') => k a h'
    | (Raise e, h') => (Raise e, h')
    end.
Definition lift {A} (r : result A) : M A := fun h => (r, h).

Notation "x <- m ;; k" := (bind m (fun x => k))
  (at level 61, m at next level, right associativity).
Notation "' p <- m ;; k" := (bind m (fun p => k))
  (at level 61, p pattern, m at next level, right associativity).

(** A new array object. *)
Definition alloc (a : ndarray R) : M ref :=
  fun h => (Ok (length h), h ++ [a]).

(** The array a reference denotes. *)
Definition deref (r : ref) : M (ndarray R) :=
  fun h =>
    match nth_error h r with
    | Some a => (Ok a, h)
    | None => (Raise (LookupError "no such array"), h)
    end.

Fixpoint list_update {A} (l : list A) (i : nat) (x : A) : list A :=
  match l, i with
  | [], _ => []
  | _ :: r, O => x :: r
  | y :: r, S i' => y :: list_update r i' x
  end.

(** Overwrite the contents of an existing array object. *)
Definition assign (r : ref) (a : ndarray R) : M unit :=
  fun h => (Ok tt, list_update h r a).

(** [assert c] with no message. *)
Definition assert_ (c : bool) : M unit :=
  if c then ret tt else raise (AssertionError None).

(** ** numpy operations *)

(** [np.atleast_1d] *)
Definition np_atleast_1d {A} (a : ndarray A) : ndarray A :=
  match shape a with
  | [] => NDArray [1%nat] (data a)
  | _ => a
  end.

(** Broadcasting of one pair of axes. *)
Definition broadcast_dim (d1 d2 : nat) : option nat :=
  if (d1 =? d2)%nat then Some d1
  else if (d1 =? 1)%nat then Some d2
  else if (d2 =? 1)%nat then Some d1
  else None.

(** Broadcasting of two shapes given with the trailing axis first. *)
Fixpoint broadcast_rev (s1 s2 : list nat) : option (list nat) :=
  match s1, s2 with
  | [], _ => Some s2
  | _, [] => Some s1
  | d1 :: r1, d2 :: r2 =>
      match broadcast_dim d1 d2, broadcast_rev r1 r2 with
      | Some d, Some r => Some (d :: r)
      | _, _ => None
      end
  end.

(** [np.broadcast_shapes]: the axes are aligned at the trailing end. *)
Definition broadcast_shapes (s1 s2 : list nat) : option (list nat) :=
  option_map (@rev nat) (broadcast_rev (rev s1) (rev s2)).

(** [n] consecutive pieces of [k] elements each. *)
Fixpoint chunks {A} (n k : nat) (l : list A) : list (list A) :=
  match n with
  | O => []
  | S n' => firstn k l :: chunks n' k (skipn k l)
  end.

(** The elements of an array of shape [src] read through shape [tgt];
    both shapes have the same number of axes and every axis of [src]
    either equals that of [tgt] or is 1 and then repeated. *)
Fixpoint broadcast_data {A} (src tgt : list nat) (l : list A) : list A :=
  match src, tgt with
  | d :: src', D :: tgt' =>
      let rows :=
        map (broadcast_data src' tgt') (chunks d (prod_shape src') l) in
      if (d =? D)%nat then concat rows else concat (repeat (concat rows) D)
  | _, _ => l
  end.

(** [np.broadcast_to(a, s).ravel()]: missing leading axes count as 1. *)
Definition np_broadcast_to {A} (a : ndarray A) (s : list nat) : list A :=
  broadcast_data
    (repeat 1%nat (length s - length (shape a)) ++ shape a) s (data a).

Fixpoint map2 {A B C} (f : A -> B -> C) (l1 : list A) (l2 : list B)
  : list C :=
  match l1, l2 with
  | x :: r1, y :: r2 => f x y :: map2 f r1 r2
  | _, _ => []
  end.

(** A binary ufunc ([*], [**]) on two arrays. *)
Definition np_binop (f : R -> R -> R) (a b : ndarray R)
  : result (ndarray R) :=
  match broadcast_shapes (shape a) (shape b) with
  | Some s =>
      Ok (NDArray s (map2 f (np_broadcast_to a s) (np_broadcast_to b s)))
  | None => Raise (ValueError "operands could not be broadcast together")
  end.

Definition list_eqb (s1 s2 : list nat) : bool :=
  if list_eq_dec Nat.eq_dec s1 s2 then true else false.

(** [a += b] on the array object [r]: the broadcast shape of both operands
    has to be the shape of the output operand. *)
Definition np_iadd (r : ref) (b : ndarray R) : M unit :=
  a <- deref r ;;
  match broadcast_shapes (shape a) (shape b) with
  | Some s =>
      if list_eqb s (shape a)
      then assign r (NDArray s (map2 Rplus (data a) (np_broadcast_to b s)))
      else raise (ValueError "non-broadcastable output operand")
  | None => raise (ValueError "operands could not be broadcast together")
  end.

(** [np.zeros_like]: a new array object. *)
Definition np_zeros_like (a : ndarray R) : M ref :=
  alloc (np_map (fun _ => 0) a).

(** Sorting, as [np.unique] does first. *)
Fixpoint insert_sorted (x : R) (l : list R) : list R :=
  match l with
  | [] => [x]
  | y :: r => if Rle_dec x y then x :: y :: r else y :: insert_sorted x r
  end.

Definition np_sort (l : list R) : list R := fold_right insert_sorted [] l.

(** Keep an element of a sorted list when it differs from the one before. *)
Fixpoint drop_repeats (l : list R) : list R :=
  match l with
  | [] => []
  | x :: r =>
      match r with
      | [] => [x]
      | y :: _ => if Req_dec_T x y then drop_repeats r else x :: drop_repeats r
      end
  end.

(** [np.unique]: the sorted distinct values of the flattened array. *)
Definition np_unique (z : ndarray R) : ndarray R :=
  let u := drop_repeats (np_sort (data z)) in
  NDArray [length u] u.

(** [np.searchsorted(a, v)] of one value, side left: the first position
    whose element is not below [v]. *)
Fixpoint searchsorted1 (a : list R) (v : R) : nat :=
  match a with
  | [] => O
  | y :: r => if Rlt_dec y v then S (searchsorted1 r v) else O
  end.

Definition np_searchsorted (a v : ndarray R) : ndarray nat :=
  np_map (searchsorted1 (data a)) v.

(** [z.shape[-1]] *)
Definition shape_last {A} (z : ndarray A) : M nat :=
  match rev (shape z) with
  | d :: _ => ret d
  | [] => raise (IndexError "tuple index out of range")
  end.

(** [np.squeeze(z, -1)] *)
Definition np_squeeze_last {A} (z : ndarray A) : M (ndarray A) :=
  match rev (shape z) with
  | d :: r =>
      if (d =? 1)%nat then ret (NDArray (rev r) (data z))
      else raise (ValueError "cannot select an axis to squeeze out")
  | [] => raise (ValueError "axis out of bounds")
  end.

(** [a.reshape(-1, 1)] *)
Definition reshape_column {A} (a : ndarray A) : ndarray A :=
  NDArray [size a; 1%nat] (data a).

(** [a[idx]] with an integer array: rows of [a] along its first axis. *)
Definition np_take {A} (a : ndarray A) (idx : ndarray nat)
  : result (ndarray A) :=
  match shape a with
  | [] => Raise (IndexError "too many indices for array")
  | d :: rest =>
      if forallb (fun i => (i <? d)%nat) (data idx)
      then
        let rows := chunks d (prod_shape rest) (data a) in
        Ok (NDArray (shape idx ++ rest)
              (flat_map (fun i => nth i rows []) (data idx)))
      else Raise (IndexError "index out of bounds")
  end.

(** ** Collaborators *)

(** The columns of the atmosphere table, as array objects of the store. *)
Record table : Type := Table {
  wavelength : ref;
  airglow_cont : ref;
  airglow_line : ref;
  trans_ma : ref
}.

(** Modelled from the spec: [skysim.utils.data.get], [skysim.utils.resample]
    and [skysim.transmission] are not part of the sources at hand.  The
    data provider hands out one cached table; [tau0R] and [tau0M] are
    functions of the wavelength (and of pressure and elevation), applied
    to every element of the grid; [resample_density] maps the values on
    the source grid to as many values as the target grid has points. *)
Record collaborators : Type := Collaborators {
  atmosphere : table;
  tau0R_at : R -> R -> R -> R;
  tau0M_at : R -> R;
  resample_row : list R -> list R -> list R -> list R;
  resample_row_length :
    forall xo xi y, length (resample_row xo xi y) = length xo
}.

(** [skysim.utils.data.get('atmosphere')] *)
Definition data_get (E : collaborators) : M table := ret (atmosphere E).

(** [column.data.copy()] *)
Definition data_copy (r : ref) : M (ndarray R) := deref r.

(** [skysim.transmission.tau0R(lam, p, H)] for scalar [p] and [H]. *)
Definition tau0R (E : collaborators) (lam : ndarray R) (p H : R)
  : ndarray R :=
  np_map (fun l => tau0R_at E l p H) lam.

(** [skysim.transmission.tau0M(lam)] *)
Definition tau0M (E : collaborators) (lam : ndarray R) : ndarray R :=
  np_map (tau0M_at E) lam.

(** [skysim.utils.resample.resample_density(x_out, x_in, y_in)]: the
    trailing axis of [y_in] runs over [x_in]; every row is resampled. *)
Definition resample_density (E : collaborators) (x_out x_in y : ndarray R)
  : result (ndarray R) :=
  match rev (shape y) with
  | k :: r =>
      if (k =? length (data x_in))%nat
      then
        Ok (NDArray (rev r ++ [length (data x_out)])
              (flat_map (resample_row E (data x_out) (data x_in))
                 (chunks (prod_shape (rev r)) k (data y))))
      else Raise (ValueError "input shapes do not match")
  | [] => Raise (ValueError "input shapes do not match")
  end.

(** ** get_airglow *)

(** Lines 106 to 130: the fluxes for the zenith angles [z]. *)
Definition airglow_fluxes (E : collaborators) (lam z : ndarray R) (p H : R)
    (Rayleigh Mie absorption : bool) : M (ndarray R * ndarray R) :=
  atm <- data_get E ;;
  cont <- data_copy (airglow_cont atm) ;;
  line <- data_copy (airglow_line atm) ;;
  let Xag := airmass_ag z in
  '(cont, line) <-
    (if absorption then
       tm <- deref (trans_ma atm) ;;
       transmission <- lift (np_binop float_power tm Xag) ;;
       cont <- lift (np_binop Rmult cont transmission) ;;
       line <- lift (np_binop Rmult line transmission) ;;
       ret (cont, line)
     else ret (cont, line)) ;;
  ag_lam <- data_copy (wavelength atm) ;;
  cont <- lift (resample_density E lam ag_lam cont) ;;
  line <- lift (resample_density E lam ag_lam line) ;;
  if Rayleigh || Mie then
    let '(fR, fM) := airglow_scattering z in
    tau0 <- np_zeros_like cont ;;
    _ <- (if Rayleigh then
            t <- lift (np_binop Rmult fR (tau0R E lam p H)) ;;
            np_iadd tau0 t
          else ret tt) ;;
    _ <- (if Mie then
            t <- lift (np_binop Rmult fM (tau0M E lam)) ;;
            np_iadd tau0 t
          else ret tt) ;;
    t0 <- deref tau0 ;;
    e <- lift (np_binop Rmult (np_map Ropp t0) Xag) ;;
    let scattering := np_map exp e in
    cont <- lift (np_binop Rmult cont scattering) ;;
    line <- lift (np_binop Rmult line scattering) ;;
    ret (cont, line)
  else ret (cont, line).

(** The whole function.  [idx_out] is bound exactly when [z_compressed]
    is set. *)
Definition get_airglow (E : collaborators) (lam z : ndarray R) (p H : R)
    (Rayleigh Mie absorption : bool) : M (ndarray R * ndarray R) :=
  let lam := np_atleast_1d lam in
  let z := np_asarray z in
  let z_unique := np_unique z in
  '(z_compressed, idx_out, z) <-
    (if (4 * size z_unique <? 3 * size z)%nat then
       d <- shape_last z ;;
       _ <- assert_ (d =? 1)%nat ;;
       sq <- np_squeeze_last z ;;
       let idx_out := np_searchsorted z_unique sq in
       ret (true, Some idx_out, reshape_column z_unique)
     else ret (false, None, z)) ;;
  '(cont, line) <- airglow_fluxes E lam z p H Rayleigh Mie absorption ;;
  match z_compressed, idx_out with
  | true, Some idx_out =>
      cont <- lift (np_take cont idx_out) ;;
      line <- lift (np_take line idx_out) ;;
      ret (cont, line)
  | _, _ => ret (cont, line)
  end.

(** Evaluation without deduplication: the same computation with
    [z_compressed] false, whatever [z] holds. *)
Definition get_airglow_direct (E : collaborators) (lam z : ndarray R)
    (p H : R) (Rayleigh Mie absorption : bool)
  : M (ndarray R * ndarray R) :=
  let lam := np_atleast_1d lam in
  let z := np_asarray z in
  airglow_fluxes E lam z p H Rayleigh Mie absorption.

(** The default arguments. *)
Definition p_default : R := 744.
Definition H_default : R := 2.64.


(** ** The formula of one element *)

(** The base that is raised to the power -0.5. *)
Definition airmass_base (z : R) : R := 1 - 0.972 * (sin (deg2rad z)) ^ 2.

(** Equation (23) of Noll 2012 at one zenith angle. *)
Definition airmass (z : R) : R := float_power (airmass_base z) (-0.5).

(** ** Rows of a broadcast result *)

(** One row of [k1] elements read as a row of [k] elements. *)
Definition row_to {A} (k1 k : nat) (r : list A) : list A :=
  if (k1 =? k)%nat then r else concat (repeat r k).

(** ** The table in the store *)

(** The four columns of the table are one-dimensional arrays of the same
    length, held by the store [h]. *)
Record table_in (E : collaborators) (h : store) (wl ct ln tm : list R)
  : Prop := {
  tbl_wavelength :
    nth_error h (wavelength (atmosphere E))
    = Some (NDArray [length wl] wl);
  tbl_cont :
    nth_error h (airglow_cont (atmosphere E))
    = Some (NDArray [length wl] ct);
  tbl_line :
    nth_error h (airglow_line (atmosphere E))
    = Some (NDArray [length wl] ln);
  tbl_trans :
    nth_error h (trans_ma (atmosphere E))
    = Some (NDArray [length wl] tm);
  tbl_cont_length : length ct = length wl;
  tbl_line_length : length ln = length wl;
  tbl_trans_length : length tm = length wl
}.

(** ** The fluxes of one zenith angle *)

Section OneAngle.
Variable E : collaborators.
(** the wavelength grid, the table's grid and its transmission *)
Variables lam wl tm : list R.
Variables p H : R.
Variables Rayleigh Mie absorption : bool.

(** A column of the table after absorption along the airmass of [z]. *)
Definition absorbed (col : list R) (z : R) : list R :=
  if absorption
  then map2 Rmult col (map (fun t => float_power t (airmass z)) tm)
  else col.

(** The optical depth accumulated in [tau0]. *)
Definition tau0_start (z : R) : list R := repeat 0 (length lam).

Definition tau0_rayleigh (z : R) : list R :=
  if Rayleigh
  then map2 Rplus (tau0_start z)
         (map (Rmult (1.669 * log10 (airmass z) - 0.146))
            (map (fun l => tau0R_at E l p H) lam))
  else tau0_start z.

Definition tau0_mie (z : R) : list R :=
  if Mie
  then map2 Rplus (tau0_rayleigh z)
         (map (Rmult (1.732 * log10 (airmass z) - 0.318))
            (map (tau0M_at E) lam))
  else tau0_rayleigh z.

(** [exp(-tau0 * Xag)] *)
Definition scattering_row (z : R) : list R :=
  map exp (map (fun t => t * airmass z) (map Ropp (tau0_mie z))).

(** One row of the result: a column of the table absorbed, resampled
    and scattered. *)
Definition flux_row (col : list R) (z : R) : list R :=
  let r := resample_row E lam wl (absorbed col z) in
  if Rayleigh || Mie then map2 Rmult r (scattering_row z) else r.
End OneAngle.

(** ** Arguments and examples *)

(** The shape of the zenith angles: a trailing axis of one element, or a
    scalar.  [S] is the shape without the trailing axis. *)
Definition angles_shape (zsh S : list nat) : Prop :=
  zsh = S ++ [1%nat] \/ (zsh = [] /\ S = []).

(** A wavelength argument: a float or a one-dimensional array. *)
Definition grid (lam : ndarray R) : Prop :=
  wf lam /\ (shape lam = [] \/ exists m, shape lam = [m]).

(** [np.broadcast_to(a, (n,) + a.shape)]: [n] copies of [a], one per row. *)
Definition np_tile {A} (n : nat) (a : ndarray A) : ndarray A :=
  NDArray (n :: shape a) (concat (repeat (data a) n)).

(** A message tells what went wrong; a bare [assert] has none. *)
Definition descriptive (e : exn) : bool :=
  match e with
  | AssertionError None => false
  | AssertionError (Some msg) => negb (String.eqb msg EmptyString)
  | ValueError msg | IndexError msg | LookupError msg =>
      negb (String.eqb msg EmptyString)
  end.

(** Cells of the store below [n] keep their contents and the store does
    not shrink. *)
Definition stable {A} (n : nat) (m : M A) : Prop :=
  forall h, (n <= length h)%nat ->
    (length h <= length (snd (m h)))%nat /\
    firstn n (snd (m h)) = firstn n h.

(** A small instance of the collaborators and of the store: a table of
    two wavelengths, optical depths that fall with the wavelength, and a
    resampler that repeats the first value. *)
Definition example_table : table := Table 0%nat 1%nat 2%nat 3%nat.

Definition example_resample (xo xi y : list R) : list R :=
  map (fun _ => hd 0 y) xo.

Definition example_collaborators : collaborators :=
  {| atmosphere := example_table;
     tau0R_at := fun l p H => p / l;
     tau0M_at := fun l => 1 / l;
     resample_row := example_resample;
     resample_row_length :=
       fun xo xi y => length_map (fun _ => hd 0 y) xo |}.

Definition example_store : store :=
  [ NDArray [2%nat] [400; 800];
    NDArray [2%nat] [1; 2];
    NDArray [2%nat] [3; 4];
    NDArray [2%nat] [0.9; 0.8] ].

(** Five wavelengths from 300 to 1100 nm. *)
Definition example_lam : ndarray R :=
  NDArray [5%nat] [300; 500; 700; 900; 1100].

(** ** The airmass in binary64, near the zenith

    What the code returns is a binary64 number.  The products, the
    difference and the constants below are those of the code, rounded
    as IEEE 754 rounds them.  The sine and the power come from the C
    library, which cannot be evaluated here; they are given where their
    value is known, and left undefined elsewhere. *)
Module F64.

(** [np.pi] *)
Definition pi : float := 0x1.921fb54442d18p+1%float.

(** [np.deg2rad]: the argument times the constant pi / 180. *)
Definition deg2rad (x : float) : float :=
  PrimFloat.mul x (PrimFloat.div pi 180%float).

(** [np.sin].  Below 2^-26 in magnitude the float nearest to the sine of
    [x] is [x] itself (the next term, x^3 / 6, is less than a quarter of
    the spacing of the floats at [x]), and this is what the library
    returns. *)
Definition sin (x : float) : option float :=
  if PrimFloat.ltb (PrimFloat.abs x) 0x1p-26%float then Some x else None.

(** [x ** y]: any power of one is one. *)
Definition power (x y : float) : option float :=
  if PrimFloat.eqb x 1%float then Some 1%float else None.

(** [(1 - 0.972 * np.sin(np.deg2rad(z)) ** 2) ** -0.5]; the square is a
    product. *)
Definition airmass_ag (z : float) : option float :=
  match sin (deg2rad z) with
  | Some s =>
      power
        (PrimFloat.sub 1%float
           (PrimFloat.mul 0.972%float (PrimFloat.mul s s)))
        (-0.5)%float
  | None => None
  end.

End F64.

Lemma np_map_map {A B C} (f : A -> B) (g : B -> C) (a : ndarray A) :
  np_map g (np_map f a) = np_map (fun x => g (f x)) a.
Proof.
  unfold np_map; simpl. now rewrite map_map.
Qed.

Lemma airmass_ag_elementwise (z : ndarray R) :
  airmass_ag z = np_map airmass z.
Proof.
  unfold airmass_ag, np_asarray.
  now rewrite !np_map_map.
Qed.

Lemma airmass_ag_shape (z : ndarray R) : shape (airmass_ag z) = shape z.
Proof. now rewrite airmass_ag_elementwise. Qed.

Lemma airmass_ag_scalar (z : R) : airmass_ag (scalar z) = scalar (airmass z).
Proof. now rewrite airmass_ag_elementwise. Qed.

(** *** Bounds on the base *)

Lemma sin_sqr_bounds (x : R) : 0 <= (sin x) ^ 2 <= 1.
Proof.
  pose proof (SIN_bound x) as [Hlo Hhi].
  split; nra.
Qed.

Lemma base_bounds (z : R) : 0.028 <= airmass_base z <= 1.
Proof.
  unfold airmass_base.
  pose proof (sin_sqr_bounds (deg2rad z)) as [Hlo Hhi].
  split; lra.
Qed.

Lemma base_pos (z : R) : 0 < airmass_base z.
Proof. pose proof (base_bounds z); lra. Qed.

Lemma float_power_pos (x y : R) : 0 < x -> float_power x y = Rpower x y.
Proof.
  intros Hx. unfold float_power.
  destruct (Req_dec_T x 0) as [E | _]; [lra | reflexivity].
Qed.

Lemma airmass_Rpower (z : R) : airmass z = Rpower (airmass_base z) (-0.5).
Proof. unfold airmass. apply float_power_pos, base_pos. Qed.

(** A negative power reverses the order of positive bases. *)
Lemma Rpower_neg_lt (a b e : R) :
  0 < a -> a < b -> e < 0 -> Rpower b e < Rpower a e.
Proof.
  intros Ha Hab He. unfold Rpower.
  apply exp_increasing.
  pose proof (ln_increasing a b Ha Hab).
  nra.
Qed.

Lemma Rpower_neg_le (a b e : R) :
  0 < a -> a <= b -> e < 0 -> Rpower b e <= Rpower a e.
Proof.
  intros Ha [Hab | ->] He.
  - left. now apply Rpower_neg_lt.
  - right. reflexivity.
Qed.

Lemma Rpower_one (e : R) : Rpower 1 e = 1.
Proof. unfold Rpower. rewrite ln_1, Rmult_0_r. apply exp_0. Qed.

Lemma airmass_ge_1 (z : R) : 1 <= airmass z.
Proof.
  rewrite airmass_Rpower, <- (Rpower_one (-0.5)).
  apply Rpower_neg_le; [apply base_pos | apply base_bounds | lra].
Qed.

Lemma airmass_le_max (z : R) : airmass z <= Rpower (1 - 0.972) (-0.5).
Proof.
  rewrite airmass_Rpower.
  apply Rpower_neg_le; [lra | | lra].
  pose proof (base_bounds z); lra.
Qed.

Lemma airmass_0 : airmass 0 = 1.
Proof.
  rewrite airmass_Rpower. unfold airmass_base, deg2rad.
  rewrite Rmult_0_l, sin_0.
  replace (1 - 0.972 * 0 ^ 2) with 1 by lra.
  apply Rpower_one.
Qed.

(** The value of a positive number written as a power -0.5. *)
Lemma Rpower_inv_sqr (c : R) : 0 < c -> Rpower (/ (c * c)) (-0.5) = c.
Proof.
  intros Hc. unfold Rpower.
  rewrite ln_Rinv by nra.
  rewrite ln_mult by assumption.
  replace (-0.5 * - (ln c + ln c)) with (ln c) by lra.
  now apply exp_ln.
Qed.

Lemma airmass_max_value : 5.97 < Rpower (1 - 0.972) (-0.5) < 5.98.
Proof.
  split.
  - rewrite <- (Rpower_inv_sqr 5.97) at 1 by lra.
    apply Rpower_neg_lt; lra.
  - rewrite <- (Rpower_inv_sqr 5.98) at 1 by lra.
    apply Rpower_neg_lt; lra.
Qed.

(** *** Monotonicity *)





(** *** Scattering factors *)

Lemma ln_10_pos : 0 < ln 10.
Proof. rewrite <- ln_1. apply ln_increasing; lra. Qed.

Lemma log10_1 : log10 1 = 0.
Proof. unfold log10. rewrite ln_1. lra. Qed.

Lemma log10_lt_1 (x : R) : 0 < x -> x < 10 -> log10 x < 1.
Proof.
  intros H0 H10. unfold log10.
  pose proof ln_10_pos as Hl.
  pose proof (ln_increasing x 10 H0 H10) as Hx.
  apply Rmult_lt_reg_r with (ln 10); [assumption |].
  unfold Rdiv. rewrite Rmult_assoc, Rinv_l by lra. lra.
Qed.

Lemma log10_airmass_bounds (z : R) : 0 <= log10 (airmass z) < 1.
Proof.
  pose proof (airmass_ge_1 z) as H1.
  pose proof (airmass_le_max z) as H2.
  pose proof airmass_max_value as [_ H3].
  split.
  - unfold log10. pose proof ln_10_pos as Hl.
    assert (0 <= ln (airmass z)).
    { destruct H1 as [H1 | <-]; [| rewrite ln_1; lra].
      left. rewrite <- ln_1. apply ln_increasing; lra. }
    apply Rmult_le_reg_r with (ln 10); [assumption |].
    unfold Rdiv. rewrite Rmult_assoc, Rinv_l by lra. lra.
  - apply log10_lt_1; lra.
Qed.

Lemma airglow_scattering_elementwise (z : ndarray R) :
  airglow_scattering z =
    (np_map (fun v => 1.669 * log10 (airmass v) - 0.146) z,
     np_map (fun v => 1.732 * log10 (airmass v) - 0.318) z).
Proof.
  unfold airglow_scattering.
  rewrite airmass_ag_elementwise, !np_map_map. reflexivity.
Qed.

(** ** Properties of airmass_ag and airglow_scattering *)

(** C6 (as stated, refuted).  No zenith angle below 90 degrees, and in
    fact no real angle at all, makes the base 1 - 0.972 sin^2 vanish:
    the supposed singularity near 88.7 degrees does not exist. *)
Lemma airmass_singularity_absent :
  ~ (exists z : R, z < 90 /\ airmass_base z = 0).
Proof.
  intros [z [_ Hz]].
  pose proof (base_pos z). lra.
Qed.

(** C6 (amended).  For every real zenith angle sin^2 stays away from
    1/0.972, the base is at least 0.028, and [airmass_ag] returns the
    finite value base^(-1/2), which lies between 1 and
    (1 - 0.972)^(-1/2) < 5.98. *)
Theorem airmass_ag_defined_everywhere (z : R) :
  (sin (deg2rad z)) ^ 2 <> 1 / 0.972 /\
  0.028 <= airmass_base z /\
  airmass_ag (scalar z) = scalar (Rpower (airmass_base z) (-0.5)) /\
  1 <= item (airmass_ag (scalar z)) <= Rpower (1 - 0.972) (-0.5) /\
  Rpower (1 - 0.972) (-0.5) < 5.98.
Proof.
  pose proof (sin_sqr_bounds (deg2rad z)) as [_ Hs].
  repeat split.
  - intros E. rewrite E in Hs. lra.
  - apply base_bounds.
  - rewrite airmass_ag_scalar. now rewrite airmass_Rpower.
  - rewrite airmass_ag_scalar. apply airmass_ge_1.
  - rewrite airmass_ag_scalar. apply airmass_le_max.
  - apply airmass_max_value.
Qed.

(** C7.  [airglow_scattering z] computes x = log10 (airmass_ag z) and
    returns fR = 1.669 x - 0.146 and fM = 1.732 x - 0.318, element by
    element with the shape of [z]; at z = 0 the pair is
    (-0.146, -0.318). *)
Theorem airglow_scattering_formula (z : ndarray R) :
  let x := np_map log10 (airmass_ag z) in
  let (fR, fM) := airglow_scattering z in
  shape x = shape z /\
  shape fR = shape z /\ shape fM = shape z /\
  data fR = map (fun t => 1.669 * t - 0.146) (data x) /\
  data fM = map (fun t => 1.732 * t - 0.318) (data x) /\
  data x = map (fun v => log10 (airmass v)) (data z) /\
  airglow_scattering (scalar 0) = (scalar (-0.146), scalar (-0.318)).
Proof.
  cbv zeta.
  assert (H0 : airglow_scattering (scalar 0)
               = (scalar (-0.146), scalar (-0.318))).
  { rewrite airglow_scattering_elementwise.
    unfold scalar, np_map; cbn [map shape data].
    rewrite airmass_0, log10_1.
    f_equal; f_equal; f_equal; lra. }
  rewrite H0.
  unfold airglow_scattering.
  rewrite !np_map_map, airmass_ag_elementwise. cbn [np_map shape data].
  rewrite !map_map.
  repeat split.
Qed.

(** C8.  Every zenith angle in 0 <= z < 88.7 has an airmass of at least
    one, and the airmass at the zenith is exactly one. *)
Theorem airmass_ag_at_least_one (z : ndarray R)
    (Hz : Forall (fun v => 0 <= v < 88.7) (data z)) :
  shape (airmass_ag z) = shape z /\
  Forall (fun a => 1 <= a) (data (airmass_ag z)) /\
  airmass_ag (scalar 0) = scalar 1.
Proof.
  split; [apply airmass_ag_shape |].
  split.
  - rewrite airmass_ag_elementwise. cbn [np_map data].
    apply Forall_map.
    eapply Forall_impl; [| exact Hz].
    intros v _. apply airmass_ge_1.
  - rewrite airmass_ag_scalar. now rewrite airmass_0.
Qed.

Lemma airmass_ag_at_least_one_witness :
  Forall (fun v => 0 <= v < 88.7) [0; 30; 60] /\
  Forall (fun a => 1 <= a) (data (airmass_ag (NDArray [3%nat] [0; 30; 60]))).
Proof.
  assert (Hz : Forall (fun v => 0 <= v < 88.7)
                 (data (NDArray [3%nat] [0; 30; 60])))
    by (repeat constructor; lra).
  split; [exact Hz |].
  exact (proj1 (proj2 (airmass_ag_at_least_one _ Hz))).
Defined.




(** C10.  For zenith angles between 0 and 90 degrees the Rayleigh factor
    exceeds the Mie factor: their difference is
    0.172 - 0.063 log10 (airmass), and the airmass never exceeds
    (1 - 0.972)^(-1/2), which is below 5.98. *)
Theorem rayleigh_exceeds_mie (z : ndarray R)
    (Hz : Forall (fun v => 0 <= v <= 90) (data z)) :
  let (fR, fM) := airglow_scattering z in
  Forall (fun a => a <= Rpower (1 - 0.972) (-0.5)) (data (airmass_ag z)) /\
  Rpower (1 - 0.972) (-0.5) < 5.98 /\
  map2 Rminus (data fR) (data fM) =
    map (fun a => 0.172 - 0.063 * log10 a) (data (airmass_ag z)) /\
  Forall2 (fun r m => m < r) (data fR) (data fM).
Proof.
  rewrite airglow_scattering_elementwise, airmass_ag_elementwise.
  cbn [np_map data].
  split; [| split; [apply airmass_max_value | split]].
  - apply Forall_map, Forall_forall. intros v _. apply airmass_le_max.
  - clear Hz. induction (data z) as [| v l IH]; cbn [map map2].
    + reflexivity.
    + rewrite IH. f_equal. lra.
  - clear Hz. induction (data z) as [| v l IH]; cbn [map].
    + constructor.
    + constructor; [| exact IH].
      pose proof (log10_airmass_bounds v). lra.
Qed.

Lemma rayleigh_exceeds_mie_witness :
  Forall (fun v => 0 <= v <= 90) [0; 45; 90] /\
  Forall2 (fun r m => m < r)
    (data (fst (airglow_scattering (NDArray [3%nat] [0; 45; 90]))))
    (data (snd (airglow_scattering (NDArray [3%nat] [0; 45; 90])))).
Proof.
  assert (Hz : Forall (fun v => 0 <= v <= 90)
                 (data (NDArray [3%nat] [0; 45; 90])))
    by (repeat constructor; lra).
  split; [exact Hz |].
  pose proof (rayleigh_exceeds_mie _ Hz) as H.
  destruct (airglow_scattering (NDArray [3%nat] [0; 45; 90])) as [fR fM].
  exact (proj2 (proj2 (proj2 H))).
Defined.

(** ** Lists cut into rows *)

Section Rows.
Context {K A : Type}.
Variable G : K -> list A.
Variable k : nat.
Hypothesis G_length : forall z, length (G z) = k.

Lemma flat_map_rows_length (zs : list K) :
  length (flat_map G zs) = (length zs * k)%nat.
Proof.
  induction zs as [| z zs IH]; cbn [flat_map length]; [reflexivity |].
  rewrite length_app, IH, G_length. lia.
Qed.

Lemma firstn_flat_map (P : nat) (zs : list K) :
  firstn (P * k) (flat_map G zs) = flat_map G (firstn P zs).
Proof.
  revert zs; induction P as [| P IH]; intros zs; [reflexivity |].
  destruct zs as [| z zs]; [now rewrite firstn_nil |].
  cbn [flat_map firstn].
  replace (S P * k)%nat with (length (G z) + P * k)%nat
    by (rewrite G_length; lia).
  now rewrite firstn_app_2, IH.
Qed.

Lemma skipn_flat_map (P : nat) (zs : list K) :
  skipn (P * k) (flat_map G zs) = flat_map G (skipn P zs).
Proof.
  revert zs; induction P as [| P IH]; intros zs; [reflexivity |].
  destruct zs as [| z zs]; [now rewrite skipn_nil |].
  cbn [flat_map skipn].
  rewrite skipn_app, G_length.
  rewrite skipn_all2 by (rewrite G_length; lia).
  replace (S P * k - k)%nat with (P * k)%nat by lia.
  now rewrite IH.
Qed.

Lemma chunks_flat_map_groups (d P : nat) (zs : list K) :
  chunks d (P * k) (flat_map G zs) = map (flat_map G) (chunks d P zs).
Proof.
  revert zs; induction d as [| d IH]; intros zs; [reflexivity |].
  cbn [chunks map].
  now rewrite firstn_flat_map, skipn_flat_map, IH.
Qed.

Lemma chunks_flat_map (zs : list K) :
  chunks (length zs) k (flat_map G zs) = map G zs.
Proof.
  induction zs as [| z zs IH]; [reflexivity |].
  cbn [length chunks flat_map map].
  rewrite firstn_app, skipn_app, G_length, Nat.sub_diag.
  rewrite firstn_all2, skipn_all2 by (rewrite G_length; lia).
  cbn [firstn skipn app]. rewrite app_nil_r.
  now rewrite IH.
Qed.
End Rows.

Lemma chunks_concat {A} (d P : nat) (l : list A) :
  length l = (d * P)%nat -> concat (chunks d P l) = l.
Proof.
  revert l; induction d as [| d IH]; intros l Hl.
  - destruct l; [reflexivity | discriminate].
  - cbn [chunks concat].
    rewrite IH by (rewrite length_skipn; lia).
    apply firstn_skipn.
Qed.

Lemma chunks_piece_length {A} (d P : nat) (l : list A) :
  length l = (d * P)%nat -> Forall (fun c => length c = P) (chunks d P l).
Proof.
  revert l; induction d as [| d IH]; intros l Hl; [constructor |].
  cbn [chunks]. constructor.
  - rewrite length_firstn. lia.
  - apply IH. rewrite length_skipn. lia.
Qed.

Lemma chunks_length {A} (d P : nat) (l : list A) :
  length (chunks d P l) = d.
Proof.
  revert l; induction d as [| d IH]; intros l; cbn [chunks length];
    [reflexivity | now rewrite IH].
Qed.

Lemma concat_map_flat_map {K A} (G : K -> list A) (gs : list (list K)) :
  concat (map (flat_map G) gs) = flat_map G (concat gs).
Proof.
  induction gs as [| g gs IH]; [reflexivity |].
  cbn [map concat]. now rewrite flat_map_app, IH.
Qed.

Lemma flat_map_const {K A} (v : list A) (zs : list K) :
  flat_map (fun _ => v) zs = concat (repeat v (length zs)).
Proof.
  induction zs as [| z zs IH]; [reflexivity |].
  cbn [flat_map length repeat concat]. now rewrite IH.
Qed.

Lemma concat_repeat_app {A} (v : list A) (a b : nat) :
  concat (repeat v (a + b)) = concat (repeat v a) ++ concat (repeat v b).
Proof. now rewrite repeat_app, concat_app. Qed.

Lemma concat_repeat_mul {A} (v : list A) (d P : nat) :
  concat (repeat (concat (repeat v P)) d) = concat (repeat v (d * P)).
Proof.
  induction d as [| d IH]; [reflexivity |].
  cbn [repeat concat Nat.mul]. now rewrite concat_repeat_app, IH.
Qed.

Lemma concat_repeat_singleton {A} (x : A) (n : nat) :
  concat (repeat [x] n) = repeat x n.
Proof.
  induction n as [| n IH]; [reflexivity |].
  cbn [repeat concat app]. now rewrite IH.
Qed.

(** *** map2 *)

Lemma map2_length {A B C} (f : A -> B -> C) (l1 : list A) (l2 : list B) :
  length l1 = length l2 -> length (map2 f l1 l2) = length l1.
Proof.
  revert l2; induction l1 as [| x l1 IH]; intros [| y l2] H;
    try discriminate; cbn [map2 length]; [reflexivity |].
  now rewrite IH by (cbn in H; lia).
Qed.

Lemma map2_app {A B C} (f : A -> B -> C) (l1 l1' : list A)
    (l2 l2' : list B) :
  length l1 = length l2 ->
  map2 f (l1 ++ l1') (l2 ++ l2') = map2 f l1 l2 ++ map2 f l1' l2'.
Proof.
  revert l2; induction l1 as [| x l1 IH]; intros [| y l2] H;
    try discriminate; cbn [map2 app]; [reflexivity |].
  now rewrite IH by (cbn in H; lia).
Qed.

Lemma map2_flat_map {K A B C} (f : A -> B -> C) (G1 : K -> list A)
    (G2 : K -> list B) (zs : list K) :
  (forall z, length (G1 z) = length (G2 z)) ->
  map2 f (flat_map G1 zs) (flat_map G2 zs)
  = flat_map (fun z => map2 f (G1 z) (G2 z)) zs.
Proof.
  intros H. induction zs as [| z zs IH]; [reflexivity |].
  cbn [flat_map]. now rewrite map2_app, IH by apply H.
Qed.

Lemma map2_repeat_r {A B C} (f : A -> B -> C) (l : list A) (y : B) :
  map2 f l (repeat y (length l)) = map (fun x => f x y) l.
Proof.
  induction l as [| x l IH]; [reflexivity |].
  cbn [length repeat map2 map]. now rewrite IH.
Qed.

Lemma map2_repeat_l {A B C} (f : A -> B -> C) (x : A) (l : list B) :
  map2 f (repeat x (length l)) l = map (f x) l.
Proof.
  induction l as [| y l IH]; [reflexivity |].
  cbn [length repeat map2 map]. now rewrite IH.
Qed.

Lemma map2_map_same {K A B C} (f : A -> B -> C) (g : K -> A) (h : K -> B)
    (l : list K) :
  map2 f (map g l) (map h l) = map (fun x => f (g x) (h x)) l.
Proof.
  induction l as [| x l IH]; [reflexivity |].
  cbn [map map2]. now rewrite IH.
Qed.

(** ** Broadcasting along rows *)

Lemma prod_shape_app (s t : list nat) :
  prod_shape (s ++ t) = (prod_shape s * prod_shape t)%nat.
Proof.
  induction s as [| d s IH]; cbn [app prod_shape]; [lia |].
  rewrite IH. lia.
Qed.

Lemma prod_shape_last (s : list nat) (k : nat) :
  prod_shape (s ++ [k]) = (prod_shape s * k)%nat.
Proof. rewrite prod_shape_app. cbn [prod_shape]. lia. Qed.

Lemma prod_shape_ones (n k : nat) :
  prod_shape (repeat 1%nat n ++ [k]) = k.
Proof.
  induction n as [| n IH]; cbn [repeat app prod_shape]; lia.
Qed.

Lemma broadcast_dim_inv (k1 k2 k : nat) :
  broadcast_dim k1 k2 = Some k ->
  (k1 = k \/ k1 = 1%nat) /\ (k2 = k \/ k2 = 1%nat).
Proof.
  unfold broadcast_dim.
  destruct (Nat.eqb_spec k1 k2); [intros [= <-]; lia |].
  destruct (Nat.eqb_spec k1 1); [intros [= <-]; lia |].
  destruct (Nat.eqb_spec k2 1); [intros [= <-]; lia | discriminate].
Qed.

Lemma broadcast_dim_same (k : nat) : broadcast_dim k k = Some k.
Proof. unfold broadcast_dim. now rewrite Nat.eqb_refl. Qed.

Lemma broadcast_dim_1_l (k : nat) : broadcast_dim 1 k = Some k.
Proof.
  unfold broadcast_dim.
  destruct (Nat.eqb_spec 1 k); [now subst | reflexivity].
Qed.

Lemma broadcast_dim_1_r (k : nat) : broadcast_dim k 1 = Some k.
Proof.
  unfold broadcast_dim.
  destruct (Nat.eqb_spec k 1); [reflexivity |].
  reflexivity.
Qed.

Lemma broadcast_rev_same (s : list nat) : broadcast_rev s s = Some s.
Proof.
  induction s as [| d s IH]; [reflexivity |].
  cbn [broadcast_rev]. now rewrite broadcast_dim_same, IH.
Qed.

Lemma broadcast_rev_nil_r (s : list nat) : broadcast_rev s [] = Some s.
Proof. now destruct s. Qed.

Lemma broadcast_shapes_rows (S : list nat) (k1 k2 k : nat) :
  broadcast_dim k1 k2 = Some k ->
  broadcast_shapes (S ++ [k1]) (S ++ [k2]) = Some (S ++ [k]).
Proof.
  intros Hk. unfold broadcast_shapes.
  rewrite !rev_app_distr. cbn [rev app broadcast_rev].
  rewrite Hk, broadcast_rev_same. cbn [option_map rev].
  now rewrite rev_involutive.
Qed.

Lemma broadcast_shapes_vec_rows (S : list nat) (k1 k2 k : nat) :
  broadcast_dim k1 k2 = Some k ->
  broadcast_shapes [k1] (S ++ [k2]) = Some (S ++ [k]).
Proof.
  intros Hk. unfold broadcast_shapes.
  rewrite !rev_app_distr. cbn [rev app broadcast_rev].
  rewrite Hk. cbn [option_map rev].
  now rewrite rev_involutive.
Qed.

Lemma broadcast_shapes_rows_vec (S : list nat) (k1 k2 k : nat) :
  broadcast_dim k1 k2 = Some k ->
  broadcast_shapes (S ++ [k1]) [k2] = Some (S ++ [k]).
Proof.
  intros Hk. unfold broadcast_shapes.
  rewrite !rev_app_distr. cbn [rev app broadcast_rev].
  rewrite Hk, broadcast_rev_nil_r. cbn [option_map rev].
  now rewrite rev_involutive.
Qed.

Lemma row_to_length {A} (k1 k : nat) (r : list A) :
  length r = k1 -> k1 = k \/ k1 = 1%nat -> length (row_to k1 k r) = k.
Proof.
  intros Hr Hk. unfold row_to.
  destruct (Nat.eqb_spec k1 k) as [-> | Hne]; [assumption |].
  destruct Hk as [-> | ->]; [congruence |].
  destruct r as [| x [| y r]]; try discriminate.
  now rewrite concat_repeat_singleton, repeat_length.
Qed.

Lemma row_to_same {A} (k : nat) (r : list A) : row_to k k r = r.
Proof. unfold row_to. now rewrite Nat.eqb_refl. Qed.

Lemma row_to_single {A} (k : nat) (x : A) : row_to 1 k [x] = repeat x k.
Proof.
  unfold row_to.
  destruct (Nat.eqb_spec 1 k) as [<- | _]; [reflexivity |].
  apply concat_repeat_singleton.
Qed.

Lemma broadcast_row {A} (k1 k : nat) (r : list A) :
  length r = k1 -> broadcast_data [k1] [k] r = row_to k1 k r.
Proof.
  intros Hr. cbn [broadcast_data prod_shape].
  rewrite map_id, chunks_concat by lia.
  reflexivity.
Qed.

Lemma broadcast_rows {K A} (S : list nat) (k1 k : nat) (G : K -> list A)
    (zs : list K) :
  (forall z, length (G z) = k1) ->
  length zs = prod_shape S ->
  broadcast_data (S ++ [k1]) (S ++ [k]) (flat_map G zs)
  = flat_map (fun z => row_to k1 k (G z)) zs.
Proof.
  intros HG. revert zs.
  induction S as [| d S IH]; intros zs Hzs.
  - destruct zs as [| z [| z' zs]]; try discriminate.
    cbn [app flat_map]. rewrite !app_nil_r.
    now apply broadcast_row.
  - cbn [app broadcast_data prod_shape] in *.
    rewrite Nat.eqb_refl, prod_shape_last.
    rewrite (chunks_flat_map_groups G k1 HG).
    rewrite map_map.
    rewrite (map_ext_in _ (flat_map (fun z => row_to k1 k (G z)))).
    + rewrite concat_map_flat_map. now rewrite chunks_concat.
    + intros g Hg. apply IH.
      pose proof (chunks_piece_length d (prod_shape S) zs Hzs) as HF.
      rewrite Forall_forall in HF. now apply HF.
Qed.

Lemma broadcast_ones {A} (S : list nat) (k1 k : nat) (v : list A) :
  length v = k1 ->
  broadcast_data (repeat 1%nat (length S) ++ [k1]) (S ++ [k]) v
  = concat (repeat (row_to k1 k v) (prod_shape S)).
Proof.
  intros Hv. induction S as [| d S IH].
  - cbn [length repeat app prod_shape concat]. rewrite app_nil_r.
    now apply broadcast_row.
  - cbn [length repeat app broadcast_data prod_shape].
    rewrite prod_shape_ones.
    cbn [chunks map concat]. rewrite firstn_all2 by lia.
    rewrite IH, app_nil_r.
    destruct (Nat.eqb_spec 1 d) as [<- | _].
    + now rewrite Nat.mul_1_l.
    + apply concat_repeat_mul.
Qed.

Lemma np_broadcast_to_rows {A} (S : list nat) (k1 k : nat) (l : list A) :
  np_broadcast_to (NDArray (S ++ [k1]) l) (S ++ [k])
  = broadcast_data (S ++ [k1]) (S ++ [k]) l.
Proof.
  unfold np_broadcast_to. cbn [shape data].
  rewrite !length_app, Nat.sub_diag. reflexivity.
Qed.

Lemma np_broadcast_to_vec {A} (S : list nat) (k1 k : nat) (v : list A) :
  np_broadcast_to (NDArray [k1] v) (S ++ [k])
  = broadcast_data (repeat 1%nat (length S) ++ [k1]) (S ++ [k]) v.
Proof.
  unfold np_broadcast_to. cbn [shape data].
  rewrite length_app. cbn [length].
  now replace (length S + 1 - 1)%nat with (length S) by lia.
Qed.

Section Binop.
Variable f : R -> R -> R.
Variable S : list nat.
Variables k1 k2 k : nat.
Hypothesis Hk : broadcast_dim k1 k2 = Some k.
Variable zs : list R.
Hypothesis Hzs : length zs = prod_shape S.

Lemma binop_rows_rows (G1 G2 : R -> list R) :
  (forall z, length (G1 z) = k1) ->
  (forall z, length (G2 z) = k2) ->
  np_binop f (NDArray (S ++ [k1]) (flat_map G1 zs))
             (NDArray (S ++ [k2]) (flat_map G2 zs))
  = Ok (NDArray (S ++ [k])
          (flat_map
             (fun z => map2 f (row_to k1 k (G1 z)) (row_to k2 k (G2 z)))
             zs)).
Proof.
  intros H1 H2. unfold np_binop. cbn [shape].
  rewrite (broadcast_shapes_rows S k1 k2 k Hk).
  rewrite !np_broadcast_to_rows, !broadcast_rows by assumption.
  rewrite map2_flat_map; [reflexivity |].
  destruct (broadcast_dim_inv _ _ _ Hk).
  intros z. now rewrite !row_to_length.
Qed.

Lemma binop_vec_rows (v : list R) (G : R -> list R) :
  length v = k1 ->
  (forall z, length (G z) = k2) ->
  np_binop f (NDArray [k1] v) (NDArray (S ++ [k2]) (flat_map G zs))
  = Ok (NDArray (S ++ [k])
          (flat_map
             (fun z => map2 f (row_to k1 k v) (row_to k2 k (G z))) zs)).
Proof.
  intros H1 H2. unfold np_binop. cbn [shape].
  rewrite (broadcast_shapes_vec_rows S k1 k2 k Hk).
  rewrite np_broadcast_to_rows, np_broadcast_to_vec.
  rewrite broadcast_rows, broadcast_ones by assumption.
  rewrite <- Hzs, <- flat_map_const.
  rewrite map2_flat_map; [reflexivity |].
  destruct (broadcast_dim_inv _ _ _ Hk).
  intros z. now rewrite !row_to_length.
Qed.

Lemma binop_rows_vec (G : R -> list R) (v : list R) :
  (forall z, length (G z) = k1) ->
  length v = k2 ->
  np_binop f (NDArray (S ++ [k1]) (flat_map G zs)) (NDArray [k2] v)
  = Ok (NDArray (S ++ [k])
          (flat_map
             (fun z => map2 f (row_to k1 k (G z)) (row_to k2 k v)) zs)).
Proof.
  intros H1 H2. unfold np_binop. cbn [shape].
  rewrite (broadcast_shapes_rows_vec S k1 k2 k Hk).
  rewrite np_broadcast_to_rows, np_broadcast_to_vec.
  rewrite broadcast_rows, broadcast_ones by assumption.
  rewrite <- Hzs, <- flat_map_const.
  rewrite map2_flat_map; [reflexivity |].
  destruct (broadcast_dim_inv _ _ _ Hk).
  intros z. now rewrite !row_to_length.
Qed.
End Binop.

(** *** The operand shapes of the pipeline

    [S] is the shape of the zenith angles without their trailing axis,
    [zs] the angles in row-major order.  An array with one row [G z] per
    angle has shape [S ++ [k]] and elements [flat_map G zs]. *)

Lemma map_as_rows {K A} (g : K -> A) (zs : list K) :
  map g zs = flat_map (fun z => [g z]) zs.
Proof.
  induction zs as [| z zs IH]; [reflexivity |].
  cbn [map flat_map app]. now rewrite IH.
Qed.

Lemma np_map_rows {K A B} (g : A -> B) (S : list nat) (k : nat)
    (G : K -> list A) (zs : list K) :
  np_map g (NDArray (S ++ [k]) (flat_map G zs))
  = NDArray (S ++ [k]) (flat_map (fun z => map g (G z)) zs).
Proof.
  unfold np_map. cbn [shape data]. f_equal.
  induction zs as [| z zs IH]; [reflexivity |].
  cbn [flat_map]. now rewrite map_app, IH.
Qed.

Lemma np_binop_scalar_r (f : R -> R -> R) (s : list nat) (l c : list R) :
  s <> [] ->
  np_binop f (NDArray s l) (NDArray [] c)
  = np_binop f (NDArray s l) (NDArray [1%nat] c).
Proof.
  intros Hs. unfold np_binop, broadcast_shapes, np_broadcast_to.
  cbn [shape data rev app length].
  destruct (rev s) as [| d r] eqn:Er.
  { apply (f_equal (@rev nat)) in Er. rewrite rev_involutive in Er.
    now cbn in Er. }
  cbn [broadcast_rev]. rewrite broadcast_dim_1_r, broadcast_rev_nil_r.
  cbn [option_map].
  assert (Hl : (1 <= length (rev (d :: r)))%nat)
    by (rewrite length_rev; cbn; lia).
  rewrite app_nil_r, Nat.sub_0_r.
  replace (repeat 1%nat (length (rev (d :: r)) - 1) ++ [1%nat])
    with (repeat 1%nat (length (rev (d :: r)))); [reflexivity |].
  rewrite <- repeat_cons. cbn [repeat].
  replace (length (rev (d :: r))) with (S (length (rev (d :: r)) - 1))
    at 1 by lia.
  reflexivity.
Qed.

Lemma np_binop_scalar_l (f : R -> R -> R) (s : list nat) (l c : list R) :
  s <> [] ->
  np_binop f (NDArray [] c) (NDArray s l)
  = np_binop f (NDArray [1%nat] c) (NDArray s l).
Proof.
  intros Hs. unfold np_binop, broadcast_shapes, np_broadcast_to.
  cbn [shape data rev app length].
  destruct (rev s) as [| d r] eqn:Er.
  { apply (f_equal (@rev nat)) in Er. rewrite rev_involutive in Er.
    now cbn in Er. }
  cbn [broadcast_rev]. rewrite broadcast_dim_1_l.
  cbn [option_map].
  assert (Hl : (1 <= length (rev (d :: r)))%nat)
    by (rewrite length_rev; cbn; lia).
  rewrite app_nil_r, Nat.sub_0_r.
  replace (repeat 1%nat (length (rev (d :: r)) - 1) ++ [1%nat])
    with (repeat 1%nat (length (rev (d :: r)))); [reflexivity |].
  rewrite <- repeat_cons. cbn [repeat].
  replace (length (rev (d :: r))) with (S (length (rev (d :: r)) - 1))
    at 1 by lia.
  reflexivity.
Qed.

Lemma app_last_not_nil {A} (S : list A) (k : A) : S ++ [k] <> [].
Proof. now destruct S. Qed.

Section Steps.
Variable f : R -> R -> R.
Variable S : list nat.
Variable zsh : list nat.
Hypothesis Hzsh : angles_shape zsh S.
Variable zs : list R.
Hypothesis Hzs : length zs = prod_shape S.

Lemma binop_vec_col (k : nat) (v : list R) (g : R -> R) :
  length v = k ->
  np_binop f (NDArray [k] v) (NDArray zsh (map g zs))
  = Ok (NDArray (S ++ [k])
          (flat_map (fun z => map (fun t => f t (g z)) v) zs)).
Proof.
  intros Hv.
  assert (E : np_binop f (NDArray [k] v) (NDArray zsh (map g zs))
              = np_binop f (NDArray [k] v)
                  (NDArray (S ++ [1%nat]) (map g zs))).
  { destruct Hzsh as [-> | [-> ->]]; [reflexivity |].
    now apply np_binop_scalar_r. }
  rewrite E, map_as_rows.
  rewrite (binop_vec_rows f S k 1 k (broadcast_dim_1_r k) zs Hzs)
    by auto.
  do 2 f_equal. apply flat_map_ext. intros z.
  rewrite row_to_same, row_to_single, <- Hv. apply map2_repeat_r.
Qed.

Lemma binop_col_vec (k : nat) (g : R -> R) (v : list R) :
  length v = k ->
  np_binop f (NDArray zsh (map g zs)) (NDArray [k] v)
  = Ok (NDArray (S ++ [k]) (flat_map (fun z => map (f (g z)) v) zs)).
Proof.
  intros Hv.
  assert (E : np_binop f (NDArray zsh (map g zs)) (NDArray [k] v)
              = np_binop f (NDArray (S ++ [1%nat]) (map g zs))
                  (NDArray [k] v)).
  { destruct Hzsh as [-> | [-> ->]]; [reflexivity |].
    now apply np_binop_scalar_l. }
  rewrite E, map_as_rows.
  rewrite (binop_rows_vec f S 1 k k (broadcast_dim_1_l k) zs Hzs)
    by auto.
  do 2 f_equal. apply flat_map_ext. intros z.
  rewrite row_to_same, row_to_single, <- Hv. apply map2_repeat_l.
Qed.

Lemma binop_rows_col (k : nat) (G : R -> list R) (g : R -> R) :
  (forall z, length (G z) = k) ->
  np_binop f (NDArray (S ++ [k]) (flat_map G zs))
             (NDArray zsh (map g zs))
  = Ok (NDArray (S ++ [k])
          (flat_map (fun z => map (fun t => f t (g z)) (G z)) zs)).
Proof.
  intros HG.
  assert (E : np_binop f (NDArray (S ++ [k]) (flat_map G zs))
                (NDArray zsh (map g zs))
              = np_binop f (NDArray (S ++ [k]) (flat_map G zs))
                  (NDArray (S ++ [1%nat]) (map g zs))).
  { destruct Hzsh as [-> | [-> ->]]; [reflexivity |].
    apply np_binop_scalar_r, app_last_not_nil. }
  rewrite E, map_as_rows.
  rewrite (binop_rows_rows f S k 1 k (broadcast_dim_1_r k) zs Hzs)
    by auto.
  do 2 f_equal. apply flat_map_ext. intros z.
  rewrite row_to_same, row_to_single, <- (HG z). apply map2_repeat_r.
Qed.

Lemma binop_vec_rows_same (k : nat) (v : list R) (G : R -> list R) :
  length v = k ->
  (forall z, length (G z) = k) ->
  np_binop f (NDArray [k] v) (NDArray (S ++ [k]) (flat_map G zs))
  = Ok (NDArray (S ++ [k]) (flat_map (fun z => map2 f v (G z)) zs)).
Proof.
  intros Hv HG.
  rewrite (binop_vec_rows f S k k k (broadcast_dim_same k) zs Hzs)
    by auto.
  do 2 f_equal. apply flat_map_ext. intros z.
  now rewrite !row_to_same.
Qed.

Lemma binop_rows_rows_same (k : nat) (G1 G2 : R -> list R) :
  (forall z, length (G1 z) = k) ->
  (forall z, length (G2 z) = k) ->
  np_binop f (NDArray (S ++ [k]) (flat_map G1 zs))
             (NDArray (S ++ [k]) (flat_map G2 zs))
  = Ok (NDArray (S ++ [k])
          (flat_map (fun z => map2 f (G1 z) (G2 z)) zs)).
Proof.
  intros H1 H2.
  rewrite (binop_rows_rows f S k k k (broadcast_dim_same k) zs Hzs)
    by auto.
  do 2 f_equal. apply flat_map_ext. intros z.
  now rewrite !row_to_same.
Qed.
End Steps.

Lemma resample_density_rows (E : collaborators) (S : list nat)
    (lam wl : list R) (sl : list nat) (G : R -> list R) (zs : list R) :
  (forall z, length (G z) = length wl) ->
  length zs = prod_shape S ->
  resample_density E (NDArray sl lam) (NDArray [length wl] wl)
    (NDArray (S ++ [length wl]) (flat_map G zs))
  = Ok (NDArray (S ++ [length lam])
          (flat_map (fun z => resample_row E lam wl (G z)) zs)).
Proof.
  intros HG Hzs. unfold resample_density. cbn [shape data].
  rewrite rev_app_distr. cbn [rev app].
  rewrite Nat.eqb_refl, rev_involutive, <- Hzs.
  rewrite (chunks_flat_map G (length wl) HG).
  do 2 f_equal. clear Hzs.
  induction zs as [| z l IH]; [reflexivity |].
  cbn [map flat_map]. now rewrite IH.
Qed.

(** *** The store *)

Lemma list_update_last {A} (h : list A) (x y : A) :
  list_update (h ++ [x]) (length h) y = h ++ [y].
Proof.
  induction h as [| a h IH]; [reflexivity |].
  cbn [app length list_update]. now rewrite IH.
Qed.

Lemma list_update_length {A} (h : list A) (i : nat) (y : A) :
  length (list_update h i y) = length h.
Proof.
  revert i; induction h as [| a h IH]; intros [| i];
    cbn [list_update length]; try reflexivity.
  now rewrite IH.
Qed.

Lemma firstn_list_update {A} (h : list A) (n i : nat) (y : A) :
  (n <= i)%nat -> firstn n (list_update h i y) = firstn n h.
Proof.
  revert n i; induction h as [| a h IH]; intros n i Hn.
  - now destruct i.
  - destruct i as [| i]; [now replace n with 0%nat by lia |].
    destruct n as [| n]; [reflexivity |].
    cbn [list_update firstn]. rewrite IH by lia. reflexivity.
Qed.

Lemma nth_error_last {A} (h : list A) (x : A) :
  nth_error (h ++ [x]) (length h) = Some x.
Proof.
  rewrite nth_error_app2, Nat.sub_diag by lia. reflexivity.
Qed.

Lemma list_eqb_refl (s : list nat) : list_eqb s s = true.
Proof.
  unfold list_eqb. now destruct (list_eq_dec Nat.eq_dec s s).
Qed.

Lemma np_iadd_rows (h : store) (t : ndarray R) (S : list nat) (k : nat)
    (G1 G2 : R -> list R) (zs : list R) :
  t = NDArray (S ++ [k]) (flat_map G1 zs) ->
  (forall z, length (G1 z) = k) ->
  (forall z, length (G2 z) = k) ->
  length zs = prod_shape S ->
  np_iadd (length h) (NDArray (S ++ [k]) (flat_map G2 zs)) (h ++ [t])
  = (Ok tt,
     h ++ [NDArray (S ++ [k])
             (flat_map (fun z => map2 Rplus (G1 z) (G2 z)) zs)]).
Proof.
  intros -> H1 H2 Hzs. unfold np_iadd, bind, deref.
  rewrite nth_error_last. cbn [shape data].
  rewrite (broadcast_shapes_rows S k k k (broadcast_dim_same k)).
  rewrite list_eqb_refl. unfold assign.
  rewrite list_update_last, np_broadcast_to_rows.
  rewrite broadcast_rows by assumption.
  rewrite map2_flat_map.
  - do 4 f_equal. apply flat_map_ext. intros z. now rewrite row_to_same.
  - intros z. now rewrite row_to_same, H1, H2.
Qed.

(** *** Rows selected by an index array *)

Lemma np_take_rows (N k : nat) (G : R -> list R) (us : list R)
    (idx : ndarray nat) :
  (forall z, length (G z) = k) ->
  length us = N ->
  Forall (fun i => (i < N)%nat) (data idx) ->
  np_take (NDArray ([N] ++ [k]) (flat_map G us)) idx
  = Ok (NDArray (shape idx ++ [k])
          (flat_map (fun i => G (nth i us 0)) (data idx))).
Proof.
  intros HG Hus Hidx. unfold np_take. cbn [shape data app prod_shape].
  replace (forallb (fun i => (i <? N)%nat) (data idx)) with true.
  2:{ symmetry. apply forallb_forall. rewrite Forall_forall in Hidx.
      intros i Hi. apply Nat.ltb_lt. now apply Hidx. }
  rewrite Nat.mul_1_r, <- Hus, (chunks_flat_map G k HG).
  do 2 f_equal.
  rewrite Forall_forall in Hidx.
  induction (data idx) as [| i l IH]; [reflexivity |].
  cbn [flat_map]. rewrite IH by (intros j Hj; apply Hidx; now right).
  f_equal.
  assert (Hi : (i < length us)%nat) by (rewrite Hus; apply Hidx; now left).
  rewrite (nth_indep _ [] (G 0)) by now rewrite length_map.
  apply map_nth.
Qed.

(** ** The fluxes row by row *)

Lemma bind_ret {A B} (a : A) (k : A -> M B) (h : store) :
  bind (ret a) k h = k a h.
Proof. reflexivity. Qed.

Lemma bind_lift_Ok {A B} (a : A) (k : A -> M B) (h : store) :
  bind (lift (Ok a)) k h = k a h.
Proof. reflexivity. Qed.

Lemma bind_deref {B} (r : ref) (a : ndarray R) (k : ndarray R -> M B)
    (h : store) :
  nth_error h r = Some a -> bind (deref r) k h = k a h.
Proof. intros H. unfold bind, deref. now rewrite H. Qed.

Lemma bind_alloc {B} (a : ndarray R) (k : ref -> M B) (h : store) :
  bind (alloc a) k h = k (length h) (h ++ [a]).
Proof. reflexivity. Qed.

Lemma bind_bind {A B C} (m : M A) (k1 : A -> M B) (k2 : B -> M C)
    (h : store) :
  bind (bind m k1) k2 h = bind m (fun a => bind (k1 a) k2) h.
Proof. unfold bind. now destruct (m h) as [[a | e] h']. Qed.

Lemma bind_run {A B} (m : M A) (k : A -> M B) (h h' : store) (a : A) :
  m h = (Ok a, h') -> bind m k h = k a h'.
Proof. intros H. unfold bind. now rewrite H. Qed.

Ltac len :=
  intros; cbv beta;
  repeat first
    [ rewrite length_map
    | rewrite resample_row_length
    | rewrite repeat_length
    | rewrite map2_length; [| solve [len]] ];
  try reflexivity; try assumption; try lia.

Lemma map_flat_map_rows {K A B} (g : A -> B) (G : K -> list A)
    (zs : list K) :
  map g (flat_map G zs) = flat_map (fun z => map g (G z)) zs.
Proof.
  induction zs as [| z zs IH]; [reflexivity |].
  cbn [flat_map]. now rewrite map_app, IH.
Qed.

Lemma zeros_rows {K} (S : list nat) (k : nat) (G : K -> list R)
    (zs : list K) :
  (forall z, length (G z) = k) ->
  np_map (fun _ => 0) (NDArray (S ++ [k]) (flat_map G zs))
  = NDArray (S ++ [k]) (flat_map (fun _ => repeat 0 k) zs).
Proof.
  intros HG. rewrite np_map_rows. f_equal.
  apply flat_map_ext. intros z. rewrite <- (HG z).
  induction (G z) as [| x l IH]; [reflexivity |].
  cbn [map length repeat]. now rewrite IH.
Qed.

Section FluxRows.
Variable E : collaborators.
Variable h : store.
Variables wl ct ln tm : list R.
Hypothesis Htbl : table_in E h wl ct ln tm.
Variable lam : list R.
Variables zsh S : list nat.
Variable zs : list R.
Hypothesis Hzsh : angles_shape zsh S.
Hypothesis Hzs : length zs = prod_shape S.
Variables p H : R.
Variables Rayleigh Mie absorption : bool.
Hypothesis Hrows : absorption = true \/ S = [].

Let m := length lam.
Let row := flux_row E lam wl tm p H Rayleigh Mie absorption.

Lemma absorbed_length (col : list R) (z : R) :
  length col = length wl ->
  length (absorbed tm absorption col z) = length wl.
Proof.
  intros Hc. unfold absorbed. destruct absorption; [| assumption].
  pose proof (tbl_trans_length _ _ _ _ _ _ Htbl).
  len.
Qed.

Lemma absorption_block :
  (if absorption then
     tm0 <- deref (trans_ma (atmosphere E)) ;;
     transmission <-
       lift (np_binop float_power tm0 (NDArray zsh (map airmass zs))) ;;
     cont <-
       lift (np_binop Rmult (NDArray [length wl] ct) transmission) ;;
     line <-
       lift (np_binop Rmult (NDArray [length wl] ln) transmission) ;;
     ret (cont, line)
   else ret (NDArray [length wl] ct, NDArray [length wl] ln)) h
  = (Ok (NDArray (S ++ [length wl])
           (flat_map (absorbed tm absorption ct) zs),
         NDArray (S ++ [length wl])
           (flat_map (absorbed tm absorption ln) zs)), h).
Proof.
  destruct Htbl as [Hw Hc Hl Ht Lc Ll Lt].
  unfold absorbed. destruct absorption.
  - rewrite (bind_deref _ _ _ _ Ht).
    rewrite (binop_vec_col _ S zsh Hzsh zs Hzs) by assumption.
    rewrite bind_lift_Ok.
    rewrite !(binop_vec_rows_same _ S zs Hzs) by len.
    reflexivity.
  - destruct Hrows as [? | ->]; [discriminate |].
    destruct zs as [| z0 [| z1 l]]; try discriminate.
    cbn [flat_map app]. now rewrite !app_nil_r.
Qed.

Ltac flux_step :=
  first
    [ rewrite bind_ret
    | rewrite bind_alloc
    | rewrite bind_bind
    | rewrite bind_lift_Ok
    | rewrite (binop_col_vec _ S zsh Hzsh zs Hzs) by len
    | erewrite bind_run;
      [| apply np_iadd_rows; [reflexivity | len .. | exact Hzs]]
    | rewrite (bind_deref _ _ _ _ (nth_error_last _ _));
      cbn [shape data]; rewrite map_flat_map_rows
    | rewrite (binop_rows_col _ S zsh Hzsh zs Hzs m) by len;
      rewrite bind_lift_Ok; cbn [shape data]; rewrite map_flat_map_rows
    | rewrite (binop_rows_rows_same _ S zs Hzs m) by len ].

Lemma airglow_fluxes_rows :
  airglow_fluxes E (NDArray [m] lam) (NDArray zsh zs) p H
    Rayleigh Mie absorption h
  = (Ok (NDArray (S ++ [m]) (flat_map (row ct) zs),
         NDArray (S ++ [m]) (flat_map (row ln) zs)),
     if Rayleigh || Mie
     then h ++ [NDArray (S ++ [m])
                  (flat_map (tau0_mie E lam p H Rayleigh Mie) zs)]
     else h).
Proof.
  pose proof absorption_block as HA.
  pose proof absorbed_length as HL.
  destruct Htbl as [Hw Hc Hl Ht Lc Ll Lt].
  unfold airglow_fluxes, data_get, data_copy.
  rewrite bind_ret.
  rewrite (bind_deref _ _ _ _ Hc), (bind_deref _ _ _ _ Hl).
  cbv zeta.
  rewrite airmass_ag_elementwise. unfold np_map at 1 2. cbn [shape data].
  rewrite (bind_run _ _ _ _ _ HA).
  rewrite (bind_deref _ _ _ _ Hw).
  rewrite !resample_density_rows by auto.
  rewrite !bind_lift_Ok.
  rewrite airglow_scattering_elementwise.
  unfold np_zeros_like, tau0R, tau0M.
  rewrite (zeros_rows S m) by len.
  rewrite ?np_map_rows. unfold np_map. cbn [shape data].
  subst row. unfold flux_row, scattering_row, tau0_mie, tau0_rayleigh, tau0_start.
  destruct Rayleigh, Mie; cbn [orb]; [ | | | reflexivity];
    repeat flux_step; reflexivity.
Qed.
End FluxRows.

(** ** np.unique and np.searchsorted *)

Lemma insert_sorted_In (x v : R) (l : list R) :
  In v (insert_sorted x l) <-> v = x \/ In v l.
Proof.
  induction l as [| y l IH]; cbn [insert_sorted In].
  - intuition.
  - destruct (Rle_dec x y); cbn [In]; [intuition |].
    rewrite IH. intuition.
Qed.

Lemma insert_sorted_sorted (x : R) (l : list R) :
  StronglySorted Rle l -> StronglySorted Rle (insert_sorted x l).
Proof.
  induction 1 as [| y l Hs IH Hy]; cbn [insert_sorted].
  - repeat constructor.
  - destruct (Rle_dec x y) as [Hxy | Hxy].
    + constructor; [now constructor |].
      constructor; [assumption |].
      eapply Forall_impl; [| exact Hy]. intros a Ha. cbv beta in *. lra.
    + constructor; [assumption |].
      apply Forall_forall. intros a Ha.
      apply insert_sorted_In in Ha. destruct Ha as [-> | Ha]; [lra |].
      rewrite Forall_forall in Hy. now apply Hy.
Qed.

Lemma np_sort_In (v : R) (l : list R) : In v (np_sort l) <-> In v l.
Proof.
  induction l as [| x l IH]; cbn [np_sort fold_right In]; [reflexivity |].
  fold (np_sort l). rewrite insert_sorted_In, IH. intuition.
Qed.

Lemma np_sort_sorted (l : list R) : StronglySorted Rle (np_sort l).
Proof.
  induction l as [| x l IH]; cbn [np_sort fold_right]; [constructor |].
  now apply insert_sorted_sorted.
Qed.

Lemma drop_repeats_In (v : R) (l : list R) :
  In v (drop_repeats l) <-> In v l.
Proof.
  induction l as [| x l IH]; [reflexivity |].
  cbn [drop_repeats]. destruct l as [| y l]; [reflexivity |].
  destruct (Req_dec_T x y) as [-> | Hne].
  - rewrite IH. cbn [In]. intuition.
  - cbn [In] in *. rewrite IH. intuition.
Qed.

Lemma drop_repeats_sorted (l : list R) :
  StronglySorted Rle l -> StronglySorted Rlt (drop_repeats l).
Proof.
  induction 1 as [| x l Hs IH Hx]; [constructor |].
  cbn [drop_repeats]. destruct l as [| y l]; [repeat constructor |].
  destruct (Req_dec_T x y) as [-> | Hne]; [assumption |].
  constructor; [assumption |].
  apply Forall_forall. intros a Ha. rewrite drop_repeats_In in Ha.
  inversion Hs as [| ? ? Hs' Hy]; subst.
  inversion Hx as [| ? ? Hxy Hxl]; subst.
  cbn [In] in Ha. destruct Ha as [<- | Ha]; [lra |].
  rewrite Forall_forall in Hy. specialize (Hy a Ha). lra.
Qed.

Lemma np_unique_In (z : ndarray R) (v : R) :
  In v (data (np_unique z)) <-> In v (data z).
Proof.
  unfold np_unique. cbn [data]. now rewrite drop_repeats_In, np_sort_In.
Qed.

Lemma np_unique_sorted (z : ndarray R) :
  StronglySorted Rlt (data (np_unique z)).
Proof.
  unfold np_unique. cbn [data]. apply drop_repeats_sorted, np_sort_sorted.
Qed.

Lemma np_unique_size (z : ndarray R) :
  size (np_unique z) = length (data (np_unique z)).
Proof. unfold np_unique, size. cbn [shape data prod_shape]. lia. Qed.

(** On a strictly increasing array the search finds every member at its
    own position. *)
Lemma searchsorted1_member (us : list R) (v : R) :
  StronglySorted Rlt us -> In v us ->
  (searchsorted1 us v < length us)%nat /\ nth (searchsorted1 us v) us 0 = v.
Proof.
  induction 1 as [| y us Hs IH Hy]; intros Hv; [contradiction |].
  cbn [searchsorted1].
  destruct (Rlt_dec y v) as [Hlt | Hge].
  - destruct Hv as [-> | Hv]; [lra |].
    destruct (IH Hv) as [H1 H2]. cbn [length nth]. split; [lia | assumption].
  - destruct Hv as [-> | Hv].
    + cbn [length nth]. split; [lia | reflexivity].
    + rewrite Forall_forall in Hy. specialize (Hy v Hv). lra.
Qed.

Lemma flat_map_ext_in {K A} (f g : K -> list A) (l : list K) :
  (forall x, In x l -> f x = g x) -> flat_map f l = flat_map g l.
Proof.
  induction l as [| x l IH]; intros H; [reflexivity |].
  cbn [flat_map]. rewrite (H x) by now left.
  rewrite IH; [reflexivity |]. intros y Hy. apply H. now right.
Qed.

(** ** The two paths of get_airglow *)

Lemma np_atleast_1d_grid (lam : ndarray R) :
  grid lam -> np_atleast_1d lam = NDArray [length (data lam)] (data lam).
Proof.
  intros [Hwf Hs]. destruct lam as [sh d]. unfold wf in Hwf.
  cbn [shape data] in *. unfold np_atleast_1d. cbn [shape data].
  destruct Hs as [-> | [m ->]].
  - cbn [prod_shape] in Hwf. now rewrite Hwf.
  - cbn [prod_shape] in Hwf. f_equal. f_equal. lia.
Qed.

Lemma bind_return_pair {A B} (m : M (A * B)) (h : store) :
  bind m (fun '(a, b) => ret (a, b)) h = m h.
Proof.
  unfold bind, ret. now destruct (m h) as [[[a b] | e] h'].
Qed.

(** Without enough repetition in [z] the function is the direct
    evaluation. *)
Lemma get_airglow_uncompressed (E : collaborators) (lam z : ndarray R)
    (p H : R) (Rayleigh Mie absorption : bool) (h : store) :
  (4 * size (np_unique z) <? 3 * size z)%nat = false ->
  get_airglow E lam z p H Rayleigh Mie absorption h
  = get_airglow_direct E lam z p H Rayleigh Mie absorption h.
Proof.
  intros Hc. unfold get_airglow, get_airglow_direct, np_asarray.
  cbv zeta. rewrite Hc, bind_ret.
  apply bind_return_pair.
Qed.

(** With enough repetition, and a trailing axis of one element, the
    fluxes of the distinct angles are computed and then gathered. *)
Lemma get_airglow_compressed (E : collaborators) (lam : ndarray R)
    (S : list nat) (zs : list R) (p H : R)
    (Rayleigh Mie absorption : bool) (h : store) :
  let z := NDArray (S ++ [1%nat]) zs in
  let us := data (np_unique z) in
  let idx := NDArray S (map (searchsorted1 us) zs) in
  (4 * size (np_unique z) <? 3 * size z)%nat = true ->
  get_airglow E lam z p H Rayleigh Mie absorption h
  = bind (airglow_fluxes E (np_atleast_1d lam)
            (NDArray ([length us] ++ [1%nat]) us) p H
            Rayleigh Mie absorption)
      (fun '(cont, line) =>
         cont <- lift (np_take cont idx) ;;
         line <- lift (np_take line idx) ;;
         ret (cont, line)) h.
Proof.
  intros z us idx Hc. unfold get_airglow, np_asarray.
  cbv zeta. fold z. rewrite Hc.
  unfold shape_last, np_squeeze_last. subst z. cbn [shape].
  rewrite rev_app_distr. cbn [rev app].
  rewrite !bind_bind, bind_ret. cbn [Nat.eqb assert_].
  rewrite !bind_bind, !bind_ret, rev_involutive.
  unfold reshape_column, np_searchsorted, np_map. cbn [shape data].
  rewrite np_unique_size. reflexivity.
Qed.

Section Dedup.
Variable E : collaborators.
Variable h : store.
Variables wl ct ln tm : list R.
Hypothesis Htbl : table_in E h wl ct ln tm.
Variable lam : ndarray R.
Hypothesis Hlam : grid lam.
Variables p H : R.
Variables Rayleigh Mie absorption : bool.

Let m := length (data lam).
Let row := flux_row E (data lam) wl tm p H Rayleigh Mie absorption.

Lemma flux_row_length (col : list R) (z : R) : length (row col z) = m.
Proof.
  subst row m. unfold flux_row, scattering_row, tau0_mie, tau0_rayleigh,
    tau0_start.
  destruct Rayleigh, Mie; cbn [orb]; len.
Qed.

(** The direct evaluation, one row per zenith angle. *)
Lemma get_airglow_direct_rows (zsh S : list nat) (zs : list R) :
  angles_shape zsh S ->
  length zs = prod_shape S ->
  absorption = true \/ S = [] ->
  fst (get_airglow_direct E lam (NDArray zsh zs) p H
         Rayleigh Mie absorption h)
  = Ok (NDArray (S ++ [m]) (flat_map (row ct) zs),
        NDArray (S ++ [m]) (flat_map (row ln) zs)).
Proof.
  intros Hsh Hzs Hrows. unfold get_airglow_direct, np_asarray.
  cbv zeta. rewrite np_atleast_1d_grid by assumption.
  rewrite (airglow_fluxes_rows E h wl ct ln tm Htbl (data lam) zsh S zs
             Hsh Hzs p H Rayleigh Mie absorption Hrows).
  reflexivity.
Qed.

(** The deduplicated evaluation, one row per zenith angle. *)
Lemma get_airglow_compressed_rows (S : list nat) (zs : list R) :
  length zs = prod_shape S ->
  absorption = true ->
  (4 * size (np_unique (NDArray (S ++ [1%nat]) zs))
   <? 3 * size (NDArray (S ++ [1%nat]) zs))%nat = true ->
  fst (get_airglow E lam (NDArray (S ++ [1%nat]) zs) p H
         Rayleigh Mie absorption h)
  = Ok (NDArray (S ++ [m]) (flat_map (row ct) zs),
        NDArray (S ++ [m]) (flat_map (row ln) zs)).
Proof.
  intros Hzs Habs Hc.
  rewrite get_airglow_compressed by assumption.
  rewrite np_atleast_1d_grid by assumption.
  set (us := data (np_unique (NDArray (S ++ [1%nat]) zs))).
  assert (Hus : length us = prod_shape [length us])
    by (cbn [prod_shape]; lia).
  erewrite bind_run.
  2:{ rewrite (airglow_fluxes_rows E h wl ct ln tm Htbl (data lam)
                 ([length us] ++ [1%nat]) [length us] us
                 (or_introl eq_refl) Hus p H Rayleigh Mie absorption
                 (or_introl Habs)).
      reflexivity. }
  assert (Hmem : forall v, In v zs ->
            (searchsorted1 us v < length us)%nat /\
            nth (searchsorted1 us v) us 0 = v).
  { intros v Hv. apply searchsorted1_member.
    - apply np_unique_sorted.
    - apply np_unique_In. exact Hv. }
  cbv beta iota.
  pose proof flux_row_length as HL. subst row m.
  rewrite !(np_take_rows (length us) (length (data lam))) by
    (try apply HL; try reflexivity; cbn [data];
     apply Forall_forall; intros i Hi; apply in_map_iff in Hi;
     destruct Hi as [v [<- Hv]]; apply (Hmem v Hv)).
  rewrite !bind_lift_Ok. cbn [fst ret shape data].
  rewrite !flat_map_concat_map, !map_map, <- !flat_map_concat_map.
  f_equal. f_equal; f_equal;
    apply flat_map_ext_in; intros v Hv; now rewrite (proj2 (Hmem v Hv)).
Qed.
End Dedup.

(** ** The store across a call *)

Lemma stable_ret {A} (n : nat) (a : A) : stable n (ret a).
Proof. intros h Hn. now split. Qed.

Lemma stable_raise {A} (n : nat) (e : exn) : stable n (@raise A e).
Proof. intros h Hn. now split. Qed.

Lemma stable_lift {A} (n : nat) (r : result A) : stable n (lift r).
Proof. intros h Hn. now split. Qed.

Lemma stable_deref (n : nat) (r : ref) : stable n (deref r).
Proof.
  intros h Hn. unfold deref. now destruct (nth_error h r); split.
Qed.

Lemma stable_assign (n : nat) (r : ref) (a : ndarray R) :
  (n <= r)%nat -> stable n (assign r a).
Proof.
  intros Hr h Hn. unfold assign. cbn [snd]. split.
  - now rewrite list_update_length.
  - now apply firstn_list_update.
Qed.

Lemma stable_bind {A B} (n : nat) (m : M A) (k : A -> M B) :
  stable n m -> (forall a, stable n (k a)) -> stable n (bind m k).
Proof.
  intros Hm Hk h Hn. unfold bind.
  destruct (Hm h Hn) as [H1 H2].
  destruct (m h) as [[a | e] h']; cbn [snd] in *; [| now split].
  destruct (Hk a h' ltac:(lia)) as [H3 H4].
  split; [lia | congruence].
Qed.

(** A new array object lies above every cell that existed before. *)
Lemma stable_bind_alloc {B} (n : nat) (a : ndarray R) (k : ref -> M B) :
  (forall r, (n <= r)%nat -> stable n (k r)) -> stable n (bind (alloc a) k).
Proof.
  intros Hk h Hn. rewrite bind_alloc.
  destruct (Hk (length h) Hn (h ++ [a])) as [H1 H2].
  { rewrite length_app. lia. }
  rewrite length_app in H1. split; [lia |].
  rewrite H2, firstn_app.
  replace (n - length h)%nat with 0%nat by lia.
  cbn [firstn]. apply app_nil_r.
Qed.

Lemma stable_iadd (n : nat) (r : ref) (b : ndarray R) :
  (n <= r)%nat -> stable n (np_iadd r b).
Proof.
  intros Hr. unfold np_iadd.
  apply stable_bind; [apply stable_deref |]. intros a.
  destruct (broadcast_shapes (shape a) (shape b)) as [s |];
    [| apply stable_raise].
  destruct (list_eqb s (shape a));
    [now apply stable_assign | apply stable_raise].
Qed.

Ltac stab :=
  repeat first
    [ apply stable_ret
    | apply stable_raise
    | apply stable_lift
    | apply stable_deref
    | apply stable_iadd; assumption
    | apply stable_bind_alloc; intros
    | apply stable_bind; [| intros]
    | match goal with
      | |- stable _ (if ?b then _ else _) => destruct b
      | |- stable _ (let '(_, _) := ?x in _) => destruct x
      | |- stable _ (match ?x with _ => _ end) => destruct x
      end ].

Lemma stable_airglow_fluxes (n : nat) (E : collaborators)
    (lam z : ndarray R) (p H : R) (Rayleigh Mie absorption : bool) :
  stable n (airglow_fluxes E lam z p H Rayleigh Mie absorption).
Proof.
  unfold airglow_fluxes, data_get, data_copy, np_zeros_like.
  cbv zeta. stab.
Qed.

Lemma stable_get_airglow (n : nat) (E : collaborators)
    (lam z : ndarray R) (p H : R) (Rayleigh Mie absorption : bool) :
  stable n (get_airglow E lam z p H Rayleigh Mie absorption).
Proof.
  unfold get_airglow. cbv zeta.
  apply stable_bind.
  - unfold shape_last, np_squeeze_last, assert_. stab.
  - intros [[zc idx] z']. apply stable_bind.
    + apply stable_airglow_fluxes.
    + intros [c l]. stab.
Qed.

Lemma nth_error_firstn_below {A} (n r : nat) (l : list A) :
  (r < n)%nat -> nth_error (firstn n l) r = nth_error l r.
Proof.
  revert r l; induction n as [| n IH]; intros r l Hr; [lia |].
  destruct l as [| x l]; [reflexivity |].
  destruct r as [| r]; [reflexivity |].
  cbn [firstn nth_error]. apply IH. lia.
Qed.

Lemma stable_lookup {A} (m : M A) (h : store) (r : ref) (a : ndarray R) :
  stable (length h) m ->
  nth_error h r = Some a -> nth_error (snd (m h)) r = Some a.
Proof.
  intros Hm Hr.
  destruct (Hm h (le_n _)) as [_ H2].
  assert (Hlt : (r < length h)%nat)
    by (apply nth_error_Some; congruence).
  rewrite <- (nth_error_firstn_below (length h)) by assumption.
  rewrite H2, firstn_all. exact Hr.
Qed.

(** ** Concrete zenith angles *)

(** Settle the comparisons of numerals that sorting and searching make. *)
Ltac real_cases :=
  repeat match goal with
    | |- context [Rle_dec ?a ?b] =>
        destruct (Rle_dec a b); [| exfalso; lra]
    | |- context [Rle_dec ?a ?b] =>
        destruct (Rle_dec a b); [exfalso; lra |]
    | |- context [Rlt_dec ?a ?b] =>
        destruct (Rlt_dec a b); [| exfalso; lra]
    | |- context [Rlt_dec ?a ?b] =>
        destruct (Rlt_dec a b); [exfalso; lra |]
    | |- context [Req_dec_T ?a ?b] =>
        destruct (Req_dec_T a b); [| exfalso; lra]
    | |- context [Req_dec_T ?a ?b] =>
        destruct (Req_dec_T a b); [exfalso; lra |]
    end.

Lemma np_unique_distinct3 (s : list nat) (a b c : R) :
  a < b -> b < c -> np_unique (NDArray s [a; b; c]) = NDArray [3%nat] [a; b; c].
Proof.
  intros Hab Hbc. unfold np_unique, np_sort.
  cbn [data fold_right].
  repeat (cbn [insert_sorted drop_repeats]; real_cases).
  reflexivity.
Qed.

Lemma np_unique_same3 (s : list nat) (a : R) :
  np_unique (NDArray s [a; a; a]) = NDArray [1%nat] [a].
Proof.
  unfold np_unique, np_sort.
  cbn [data fold_right].
  repeat (cbn [insert_sorted drop_repeats]; real_cases).
  reflexivity.
Qed.

Lemma np_unique_scalar (a : R) : np_unique (scalar a) = NDArray [1%nat] [a].
Proof. reflexivity. Qed.

Lemma example_table_in :
  table_in example_collaborators example_store
    [400; 800] [1; 2] [3; 4] [0.9; 0.8].
Proof. constructor; reflexivity. Qed.

Lemma example_lam_grid : grid example_lam.
Proof. split; [reflexivity | right; now exists 5%nat]. Qed.

(** ** Where the function fails or does not broadcast *)

(** The assertion of the compressed path. *)
Lemma get_airglow_assertion (E : collaborators) (lam z : ndarray R)
    (p H : R) (Rayleigh Mie absorption : bool) (h : store)
    (s : list nat) (d : nat) :
  shape z = s ++ [d] -> d <> 1%nat ->
  (4 * size (np_unique z) <? 3 * size z)%nat = true ->
  get_airglow E lam z p H Rayleigh Mie absorption h
  = (Raise (AssertionError None), h).
Proof.
  intros Hs Hd Hc. unfold get_airglow, np_asarray. cbv zeta.
  rewrite Hc. unfold shape_last. rewrite Hs, rev_app_distr.
  cbn [rev app]. rewrite !bind_bind, bind_ret.
  destruct (Nat.eqb_spec d 1) as [? | _]; [contradiction |].
  reflexivity.
Qed.

(** With the three switches off the columns are resampled and nothing is
    broadcast against [z]. *)
Lemma airglow_fluxes_switches_off (E : collaborators) (h : store)
    (wl ct ln tm lam : list R) (z : ndarray R) (p H : R) :
  table_in E h wl ct ln tm ->
  airglow_fluxes E (NDArray [length lam] lam) z p H false false false h
  = (Ok (NDArray [length lam] (resample_row E lam wl ct),
         NDArray [length lam] (resample_row E lam wl ln)), h).
Proof.
  intros [Hw Hc Hl Ht Lc Ll Lt].
  unfold airglow_fluxes, data_get, data_copy. cbv zeta.
  rewrite bind_ret, (bind_deref _ _ _ _ Hc), (bind_deref _ _ _ _ Hl).
  rewrite bind_ret, (bind_deref _ _ _ _ Hw).
  unfold resample_density. cbn [shape data rev app].
  rewrite Nat.eqb_refl. cbn [prod_shape chunks flat_map].
  rewrite !firstn_all2, !app_nil_r by lia.
  reflexivity.
Qed.

(** Rows of a one-dimensional array are its elements. *)
Lemma np_take_vector_zeros (m : nat) (x : R) (r : list R) :
  length r = m ->
  np_take (NDArray [S m] (x :: r)) (NDArray [3%nat] [0; 0; 0]%nat)
  = Ok (NDArray [3%nat] [x; x; x]).
Proof.
  intros Hr. unfold np_take. cbn [shape data forallb Nat.ltb Nat.leb andb].
  cbn [prod_shape Nat.mul chunks firstn nth flat_map app].
  reflexivity.
Qed.

(** ** Properties of get_airglow *)

(** With absorption enabled, and for every setting of the two
    scattering switches, a [z] with a trailing axis of one element that
    takes the compressed path yields the arrays that the evaluation
    without deduplication yields; [z] of shape (3, 1) holding zeros
    yields the result of the scalar [z = 0] in each of its three rows. *)
Theorem dedup_agrees_with_direct (E : collaborators) (h : store)
    (wl ct ln tm : list R) (lam : ndarray R) (S : list nat) (zs : list R)
    (p H : R) (Rayleigh Mie : bool)
    (Htbl : table_in E h wl ct ln tm)
    (Hlam : grid lam)
    (Hzs : length zs = prod_shape S)
    (Hc : (4 * size (np_unique (NDArray (S ++ [1%nat]) zs))
           < 3 * size (NDArray (S ++ [1%nat]) zs))%nat) :
  (exists cont line,
     fst (get_airglow E lam (NDArray (S ++ [1%nat]) zs) p H
            Rayleigh Mie true h) = Ok (cont, line) /\
     fst (get_airglow_direct E lam (NDArray (S ++ [1%nat]) zs) p H
            Rayleigh Mie true h) = Ok (cont, line) /\
     shape cont = S ++ [length (data lam)] /\
     shape line = S ++ [length (data lam)]) /\
  (exists cont0 line0,
     fst (get_airglow E lam (scalar 0) p H Rayleigh Mie true h)
     = Ok (cont0, line0) /\
     fst (get_airglow E lam (NDArray [3; 1]%nat [0; 0; 0]) p H
            Rayleigh Mie true h)
     = Ok (np_tile 3 cont0, np_tile 3 line0)).
Proof.
  split.
  - exists (NDArray (S ++ [length (data lam)])
              (flat_map (flux_row E (data lam) wl tm p H Rayleigh Mie true ct)
                 zs)),
           (NDArray (S ++ [length (data lam)])
              (flat_map (flux_row E (data lam) wl tm p H Rayleigh Mie true ln)
                 zs)).
    split; [| split; [| split; reflexivity]].
    + apply (get_airglow_compressed_rows E h wl ct ln tm Htbl lam Hlam);
        try assumption; try reflexivity.
      now apply Nat.ltb_lt.
    + apply (get_airglow_direct_rows E h wl ct ln tm Htbl lam Hlam);
        try assumption; [now left | now left].
  - eexists; eexists. split.
    + rewrite get_airglow_uncompressed by reflexivity.
      apply (get_airglow_direct_rows E h wl ct ln tm Htbl lam Hlam
               p H Rayleigh Mie true [] [] [0]);
        [right; now split | reflexivity | now left].
    + change [3; 1]%nat with ([3] ++ [1])%nat.
      rewrite (get_airglow_compressed_rows E h wl ct ln tm Htbl lam Hlam
                 p H Rayleigh Mie true [3%nat] [0; 0; 0]);
        [| reflexivity | reflexivity |].
      * unfold np_tile. cbn [shape data flat_map repeat concat app].
        now rewrite !app_nil_r.
      * rewrite np_unique_same3. reflexivity.
Qed.

Lemma dedup_agrees_with_direct_witness :
  exists cont line,
    fst (get_airglow example_collaborators example_lam
           (NDArray [3; 1]%nat [0; 0; 0]) p_default H_default
           true true true example_store) = Ok (cont, line) /\
    fst (get_airglow_direct example_collaborators example_lam
           (NDArray [3; 1]%nat [0; 0; 0]) p_default H_default
           true true true example_store) = Ok (cont, line) /\
    shape cont = [3; 5]%nat /\ shape line = [3; 5]%nat.
Proof.
  refine (proj1 (dedup_agrees_with_direct example_collaborators
            example_store _ _ _ _ example_lam [3%nat] [0; 0; 0]
            p_default H_default true true
            example_table_in example_lam_grid eq_refl _)).
  rewrite np_unique_same3. unfold size. cbn [shape prod_shape app]. lia.
Defined.

(** C1 (the code at the failing input).  With the three switches off and
    a grid of five wavelengths, [z] of shape (3, 1) holding zeros takes
    the compressed path and comes back with shape (3,), its three entries
    being the first flux of the column; the evaluation without
    deduplication, and the call with the scalar [z = 0], return the
    column of shape (5,).  The two paths differ, and the compressed
    result is not the scalar result in three rows. *)
Theorem dedup_differs_with_switches_off (E : collaborators) (h : store)
    (wl ct ln tm : list R) (lam : ndarray R) (p H : R)
    (Htbl : table_in E h wl ct ln tm)
    (Hlam : grid lam) (Hm : length (data lam) = 5%nat) :
  exists cont line cont0 line0,
    fst (get_airglow E lam (NDArray [3; 1]%nat [0; 0; 0]) p H
           false false false h) = Ok (cont, line) /\
    fst (get_airglow_direct E lam (NDArray [3; 1]%nat [0; 0; 0]) p H
           false false false h) = Ok (cont0, line0) /\
    fst (get_airglow E lam (scalar 0) p H false false false h)
    = Ok (cont0, line0) /\
    shape cont = [3%nat] /\ shape line = [3%nat] /\
    shape cont0 = [5%nat] /\ shape line0 = [5%nat] /\
    data cont = repeat (hd 0 (data cont0)) 3 /\
    cont <> cont0 /\ cont <> np_tile 3 cont0.
Proof.
  pose proof (resample_row_length E (data lam) wl ct) as Lc.
  pose proof (resample_row_length E (data lam) wl ln) as Ll.
  rewrite Hm in Lc, Ll.
  destruct (resample_row E (data lam) wl ct) as [| c0 rc] eqn:Ec;
    [discriminate |].
  destruct (resample_row E (data lam) wl ln) as [| l0 rl] eqn:El;
    [discriminate |].
  exists (NDArray [3%nat] [c0; c0; c0]), (NDArray [3%nat] [l0; l0; l0]),
         (NDArray [5%nat] (c0 :: rc)), (NDArray [5%nat] (l0 :: rl)).
  assert (Hdirect : forall z,
            fst (get_airglow_direct E lam z p H false false false h)
            = Ok (NDArray [5%nat] (c0 :: rc), NDArray [5%nat] (l0 :: rl))).
  { intros z. unfold get_airglow_direct, np_asarray. cbv zeta.
    rewrite np_atleast_1d_grid by assumption.
    rewrite (airglow_fluxes_switches_off E h wl ct ln tm) by assumption.
    cbn [fst]. now rewrite Hm, Ec, El. }
  split; [| split; [apply Hdirect | split]].
  - change [3; 1]%nat with ([3] ++ [1])%nat.
    rewrite get_airglow_compressed
      by (rewrite np_unique_same3; reflexivity).
    rewrite np_atleast_1d_grid by assumption.
    rewrite np_unique_same3. cbn [data length map searchsorted1].
    real_cases.
    erewrite bind_run;
      [| apply (airglow_fluxes_switches_off E h wl ct ln tm);
         assumption].
    cbv beta iota. rewrite Hm, Ec, El.
    rewrite (np_take_vector_zeros 4 c0 rc) by (cbn in Lc; lia).
    rewrite (np_take_vector_zeros 4 l0 rl) by (cbn in Ll; lia).
    reflexivity.
  - rewrite get_airglow_uncompressed by reflexivity. apply Hdirect.
  - repeat split; try discriminate.
Qed.

Lemma dedup_differs_with_switches_off_witness :
  exists cont line cont0 line0,
    fst (get_airglow example_collaborators example_lam
           (NDArray [3; 1]%nat [0; 0; 0]) p_default H_default
           false false false example_store) = Ok (cont, line) /\
    fst (get_airglow_direct example_collaborators example_lam
           (NDArray [3; 1]%nat [0; 0; 0]) p_default H_default
           false false false example_store) = Ok (cont0, line0) /\
    fst (get_airglow example_collaborators example_lam (scalar 0)
           p_default H_default false false false example_store)
    = Ok (cont0, line0) /\
    shape cont = [3%nat] /\ shape line = [3%nat] /\
    shape cont0 = [5%nat] /\ shape line0 = [5%nat] /\
    data cont = repeat (hd 0 (data cont0)) 3 /\
    cont <> cont0 /\ cont <> np_tile 3 cont0.
Proof.
  exact (dedup_differs_with_switches_off example_collaborators
           example_store _ _ _ _ example_lam p_default H_default
           example_table_in example_lam_grid eq_refl).
Defined.

(** A one-dimensional [z] of [k] angles meets the table's [n] wavelengths
    in [trans_ma ** Xag]: unless the two lengths broadcast, the call
    raises. *)
Lemma airglow_fluxes_vector_rejected (E : collaborators) (h : store)
    (wl ct ln tm : list R) (lam z : ndarray R) (k : nat) (p H : R)
    (Rayleigh Mie : bool) :
  table_in E h wl ct ln tm ->
  shape z = [k] ->
  broadcast_dim (length wl) k = None ->
  airglow_fluxes E lam z p H Rayleigh Mie true h
  = (Raise (ValueError "operands could not be broadcast together"), h).
Proof.
  intros [Hw Hc Hl Ht Lc Ll Lt] Hz Hk.
  unfold airglow_fluxes, data_get, data_copy. cbv zeta.
  rewrite bind_ret, (bind_deref _ _ _ _ Hc), (bind_deref _ _ _ _ Hl).
  rewrite !bind_bind, (bind_deref _ _ _ _ Ht).
  rewrite airmass_ag_elementwise.
  unfold np_binop at 1, broadcast_shapes. cbn [np_map shape].
  rewrite Hz. cbn [rev app broadcast_rev]. rewrite Hk.
  reflexivity.
Qed.

Lemma list_eqb_longer (S : list nat) (k : nat) :
  S <> [] -> list_eqb (S ++ [k]) [k] = false.
Proof.
  intros HS. unfold list_eqb.
  destruct (list_eq_dec Nat.eq_dec (S ++ [k]) [k]) as [E | _];
    [| reflexivity].
  apply (f_equal (@length nat)) in E. rewrite length_app in E.
  destruct S; [contradiction | cbn in E; lia].
Qed.

(** In-place addition of rows to a vector. *)
Lemma np_iadd_rows_into_vector (h : store) (S : list nat) (k : nat)
    (v l : list R) :
  S <> [] ->
  np_iadd (length h) (NDArray (S ++ [k]) l) (h ++ [NDArray [k] v])
  = (Raise (ValueError "non-broadcastable output operand"),
     h ++ [NDArray [k] v]).
Proof.
  intros HS. unfold np_iadd, bind, deref.
  rewrite nth_error_last. cbn [shape].
  rewrite (broadcast_shapes_vec_rows S _ _ _ (broadcast_dim_same _)).
  now rewrite list_eqb_longer.
Qed.

(** Without absorption the resampled columns stay one-dimensional, and
    the scattering terms of several angles cannot be added into [tau0]. *)
Lemma airglow_fluxes_scattering_rejected (E : collaborators) (h : store)
    (wl ct ln tm lam : list R) (S : list nat) (zs : list R) (p H : R)
    (Rayleigh Mie : bool) :
  table_in E h wl ct ln tm ->
  S <> [] ->
  length zs = prod_shape S ->
  Rayleigh || Mie = true ->
  fst (airglow_fluxes E (NDArray [length lam] lam)
         (NDArray (S ++ [1%nat]) zs) p H Rayleigh Mie false h)
  = Raise (ValueError "non-broadcastable output operand").
Proof.
  intros [Hw Hc Hl Ht Lc Ll Lt] HS Hzs HRM.
  assert (Hsh : angles_shape (S ++ [1%nat]) S) by now left.
  unfold airglow_fluxes, data_get, data_copy. cbv zeta.
  rewrite bind_ret, (bind_deref _ _ _ _ Hc), (bind_deref _ _ _ _ Hl).
  rewrite bind_ret, (bind_deref _ _ _ _ Hw).
  unfold resample_density. cbn [shape data rev app].
  rewrite Nat.eqb_refl. cbn [prod_shape chunks flat_map].
  rewrite !firstn_all2, !app_nil_r by lia.
  rewrite !bind_lift_Ok, HRM.
  rewrite airglow_scattering_elementwise.
  unfold np_zeros_like, tau0R, tau0M, np_map. cbn [shape data].
  rewrite bind_alloc.
  destruct Rayleigh; [| destruct Mie; [| discriminate]].
  - rewrite !bind_bind.
    rewrite (binop_col_vec _ S _ Hsh zs Hzs (length lam)) by len.
    rewrite bind_lift_Ok. unfold bind at 1.
    now rewrite np_iadd_rows_into_vector.
  - rewrite bind_ret, !bind_bind.
    rewrite (binop_col_vec _ S _ Hsh zs Hzs (length lam)) by len.
    rewrite bind_lift_Ok. unfold bind at 1.
    now rewrite np_iadd_rows_into_vector.
Qed.

(** C2 (as stated, refuted).  [z = [0, 0, 0]] has one distinct value among
    three elements and a trailing axis of three elements: the call stops
    at the assertion, and the exception carries no message. *)
Lemma assertion_not_descriptive :
  let z := NDArray [3%nat] [0; 0; 0] in
  (4 * size (np_unique z) < 3 * size z)%nat /\
  shape z = [] ++ [3%nat] /\
  exists e,
    fst (get_airglow example_collaborators example_lam z
           p_default H_default true true true example_store) = Raise e /\
    descriptive e = false.
Proof.
  cbv zeta. rewrite np_unique_same3.
  split; [unfold size; cbn [shape prod_shape]; lia |].
  split; [reflexivity |].
  exists (AssertionError None). split; [| reflexivity].
  rewrite (get_airglow_assertion _ _ _ _ _ _ _ _ _ [] 3%nat);
    [reflexivity | reflexivity | discriminate |].
  rewrite np_unique_same3. reflexivity.
Qed.

(** C2 (amended).  When the compressed path is entered and the trailing
    axis of [z] does not have exactly one element, the call fails at once,
    whatever the other arguments and before the table is touched, with
    an [AssertionError] that carries no message. *)
Theorem compressed_assertion_is_bare (E : collaborators)
    (lam z : ndarray R) (p H : R) (Rayleigh Mie absorption : bool)
    (h : store) (s : list nat) (d : nat)
    (Hs : shape z = s ++ [d]) (Hd : d <> 1%nat)
    (Hc : (4 * size (np_unique z) < 3 * size z)%nat) :
  get_airglow E lam z p H Rayleigh Mie absorption h
  = (Raise (AssertionError None), h) /\
  descriptive (AssertionError None) = false.
Proof.
  split; [| reflexivity].
  apply (get_airglow_assertion _ _ _ _ _ _ _ _ _ s d); try assumption.
  now apply Nat.ltb_lt.
Qed.

Lemma compressed_assertion_is_bare_witness :
  get_airglow example_collaborators example_lam
    (NDArray [3%nat] [0; 0; 0]) p_default H_default true true true
    example_store
  = (Raise (AssertionError None), example_store).
Proof.
  refine (proj1 (compressed_assertion_is_bare example_collaborators
            example_lam (NDArray [3%nat] [0; 0; 0]) p_default H_default
            true true true example_store [] 3%nat eq_refl _ _)).
  - discriminate.
  - rewrite np_unique_same3. unfold size. cbn [shape prod_shape]. lia.
Defined.

(** C3 (the code at the failing inputs).  With the three switches off
    and a grid of five wavelengths, [z = [[0], [10], [20]]] yields arrays
    of shape (5,) and [z] of shape (3, 1) holding zeros yields arrays of
    shape (3,); neither is (3, 5). *)
Theorem switches_off_shapes (E : collaborators) (h : store)
    (wl ct ln tm : list R) (lam : ndarray R) (p H : R)
    (Htbl : table_in E h wl ct ln tm)
    (Hlam : grid lam) (Hm : length (data lam) = 5%nat) :
  (exists cont line,
     fst (get_airglow E lam (NDArray [3; 1]%nat [0; 10; 20]) p H
            false false false h) = Ok (cont, line) /\
     shape cont = [5%nat] /\ shape line = [5%nat]) /\
  (exists cont line,
     fst (get_airglow E lam (NDArray [3; 1]%nat [0; 0; 0]) p H
            false false false h) = Ok (cont, line) /\
     shape cont = [3%nat] /\ shape line = [3%nat]).
Proof.
  split.
  - eexists; eexists. split.
    + rewrite get_airglow_uncompressed
        by (rewrite np_unique_distinct3 by lra; reflexivity).
      unfold get_airglow_direct, np_asarray. cbv zeta.
      rewrite np_atleast_1d_grid by assumption.
      rewrite (airglow_fluxes_switches_off E h wl ct ln tm) by assumption.
      reflexivity.
    + cbn [shape]. rewrite Hm. split; reflexivity.
  - change [3; 1]%nat with ([3] ++ [1])%nat.
    rewrite get_airglow_compressed
      by (rewrite np_unique_same3; reflexivity).
    rewrite np_atleast_1d_grid by assumption.
    rewrite np_unique_same3. cbn [data length map searchsorted1].
    real_cases.
    erewrite bind_run;
      [| apply (airglow_fluxes_switches_off E h wl ct ln tm);
         assumption].
    cbv beta iota.
    pose proof (resample_row_length E (data lam) wl ct) as Lc.
    pose proof (resample_row_length E (data lam) wl ln) as Ll.
    rewrite Hm in *.
    destruct (resample_row E (data lam) wl ct) as [| c0 rc];
      [discriminate |].
    destruct (resample_row E (data lam) wl ln) as [| l0 rl];
      [discriminate |].
    rewrite (np_take_vector_zeros 4 c0 rc) by (cbn in Lc; lia).
    rewrite (np_take_vector_zeros 4 l0 rl) by (cbn in Ll; lia).
    rewrite !bind_lift_Ok.
    eexists; eexists. split; [reflexivity | split; reflexivity].
Qed.

Lemma switches_off_shapes_witness :
  exists cont line,
    fst (get_airglow example_collaborators example_lam
           (NDArray [3; 1]%nat [0; 10; 20]) p_default H_default
           false false false example_store) = Ok (cont, line) /\
    shape cont = [5%nat] /\ shape line = [5%nat].
Proof.
  exact (proj1 (switches_off_shapes example_collaborators example_store
           _ _ _ _ example_lam p_default H_default
           example_table_in example_lam_grid eq_refl)).
Defined.




(** C5.  Whatever the arguments and whether the call returns or raises,
    every array that was in the store before the call, and so each of the
    four columns of the table, holds the same elements afterwards. *)
Theorem get_airglow_preserves_table (E : collaborators)
    (lam z : ndarray R) (p H : R) (Rayleigh Mie absorption : bool)
    (h : store) (wl ct ln tm : list R)
    (Htbl : table_in E h wl ct ln tm) :
  let h' := snd (get_airglow E lam z p H Rayleigh Mie absorption h) in
  table_in E h' wl ct ln tm /\ firstn (length h) h' = h.
Proof.
  cbv zeta.
  pose proof (stable_get_airglow (length h) E lam z p H
                Rayleigh Mie absorption) as Hst.
  split.
  - destruct Htbl as [Hw Hc Hl Ht Lc Ll Lt].
    constructor; try assumption; now apply stable_lookup.
  - destruct (Hst h (le_n _)) as [_ H2].
    now rewrite H2, firstn_all.
Qed.

Lemma get_airglow_preserves_table_witness :
  table_in example_collaborators
    (snd (get_airglow example_collaborators example_lam
            (NDArray [3; 1]%nat [0; 10; 20]) p_default H_default
            true true true example_store))
    [400; 800] [1; 2] [3; 4] [0.9; 0.8].
Proof.
  exact (proj1 (get_airglow_preserves_table example_collaborators
           example_lam (NDArray [3; 1]%nat [0; 10; 20])
           p_default H_default true true true example_store
           _ _ _ _ example_table_in)).
Defined.

(** ** Further properties of airmass_ag and airglow_scattering *)

Lemma airmass_base_opp (v : R) : airmass_base (- v) = airmass_base v.
Proof.
  unfold airmass_base, deg2rad.
  replace (- v * (PI / 180)) with (- (v * (PI / 180))) by lra.
  rewrite sin_neg. lra.
Qed.

Lemma np_map_ext {A B} (f g : A -> B) (a : ndarray A) :
  (forall x, f x = g x) -> np_map f a = np_map g a.
Proof.
  intros H. unfold np_map. f_equal. now apply map_ext.
Qed.

(** X1.  The airmass does not tell a zenith angle from its opposite:
    [airmass_ag] gives the same array for [-z] as for [z], and so does
    [airglow_scattering]. *)
Theorem airmass_ag_even (z : ndarray R) :
  airmass_ag (np_map Ropp z) = airmass_ag z /\
  airglow_scattering (np_map Ropp z) = airglow_scattering z.
Proof.
  assert (H1 : airmass_ag (np_map Ropp z) = airmass_ag z).
  { rewrite !airmass_ag_elementwise, np_map_map. apply np_map_ext.
    intros v. unfold airmass. now rewrite airmass_base_opp. }
  split; [assumption |].
  unfold airglow_scattering. now rewrite H1.
Qed.

Lemma airmass_90 : airmass 90 = Rpower (1 - 0.972) (-0.5).
Proof.
  rewrite airmass_Rpower. unfold airmass_base, deg2rad.
  replace (90 * (PI / 180)) with (PI / 2) by lra.
  rewrite sin_PI2. f_equal. lra.
Qed.

(** X2.  At the horizon the airmass is finite: [airmass_ag 90] is
    (1 - 0.972)^(-1/2), between 5.97 and 5.98, and no zenith angle gives
    a larger airmass. *)
Theorem airmass_ag_horizon_maximum (z : ndarray R) :
  airmass_ag (scalar 90) = scalar (Rpower (1 - 0.972) (-0.5)) /\
  5.97 < item (airmass_ag (scalar 90)) < 5.98 /\
  Forall (fun a => a <= item (airmass_ag (scalar 90)))
    (data (airmass_ag z)).
Proof.
  rewrite airmass_ag_scalar, airmass_90. cbn [item scalar data hd].
  split; [reflexivity |].
  split; [apply airmass_max_value |].
  rewrite airmass_ag_elementwise. cbn [np_map data].
  apply Forall_map, Forall_forall. intros v _. apply airmass_le_max.
Qed.

(** X4.  Whatever the zenith angles, the Rayleigh factor stays in
    [-0.146, 1.523) and the Mie factor in [-0.318, 1.414), and the
    Rayleigh factor exceeds the Mie factor by more than 0.109. *)
Theorem airglow_scattering_bounds (z : ndarray R) :
  let (fR, fM) := airglow_scattering z in
  Forall (fun r => -0.146 <= r < 1.523) (data fR) /\
  Forall (fun m => -0.318 <= m < 1.414) (data fM) /\
  Forall2 (fun r m => 0.109 < r - m) (data fR) (data fM).
Proof.
  rewrite airglow_scattering_elementwise. cbn [np_map data].
  repeat split.
  - apply Forall_map, Forall_forall. intros v _.
    pose proof (log10_airmass_bounds v). lra.
  - apply Forall_map, Forall_forall. intros v _.
    pose proof (log10_airmass_bounds v). lra.
  - induction (data z) as [| v l IH]; cbn [map]; constructor;
      [| exact IH].
    pose proof (log10_airmass_bounds v). lra.
Qed.

(** ** Further properties of get_airglow *)

Lemma fst_bind_raise {A B} (m : M A) (k : A -> M B) (h : store) (e : exn) :
  fst (m h) = Raise e -> fst (bind m k h) = Raise e.
Proof.
  unfold bind. destruct (m h) as [[a | e'] h']; cbn [fst]; congruence.
Qed.

(** X5.  The fluxes of an array of zenith angles are those of the
    single angles, one row each: with absorption enabled, on either
    path, row [i] of [get_airglow(lam, z)] is [get_airglow(lam, z[i])]
    of the scalar call. *)
Theorem get_airglow_rows_are_scalar_calls (E : collaborators) (h : store)
    (wl ct ln tm : list R) (lam : ndarray R) (S : list nat) (zs : list R)
    (p H : R) (Rayleigh Mie : bool)
    (Htbl : table_in E h wl ct ln tm)
    (Hlam : grid lam)
    (Hzs : length zs = prod_shape S) :
  exists cont_of line_of : R -> list R,
    (forall v,
       fst (get_airglow E lam (scalar v) p H Rayleigh Mie true h)
       = Ok (NDArray [length (data lam)] (cont_of v),
             NDArray [length (data lam)] (line_of v))) /\
    fst (get_airglow E lam (NDArray (S ++ [1%nat]) zs) p H
           Rayleigh Mie true h)
    = Ok (NDArray (S ++ [length (data lam)]) (flat_map cont_of zs),
          NDArray (S ++ [length (data lam)]) (flat_map line_of zs)).
Proof.
  exists (flux_row E (data lam) wl tm p H Rayleigh Mie true ct),
         (flux_row E (data lam) wl tm p H Rayleigh Mie true ln).
  split.
  - intros v. rewrite get_airglow_uncompressed by reflexivity.
    unfold scalar.
    rewrite (get_airglow_direct_rows E h wl ct ln tm Htbl lam Hlam
               p H Rayleigh Mie true [] [] [v]);
      [| right; now split | reflexivity | now left].
    cbn [flat_map app]. now rewrite !app_nil_r.
  - destruct (4 * size (np_unique (NDArray (S ++ [1%nat]) zs))
              <? 3 * size (NDArray (S ++ [1%nat]) zs))%nat eqn:Hc.
    + now apply (get_airglow_compressed_rows E h wl ct ln tm Htbl lam Hlam).
    + rewrite get_airglow_uncompressed by assumption.
      apply (get_airglow_direct_rows E h wl ct ln tm Htbl lam Hlam);
        [now left | assumption | now left].
Qed.

Lemma get_airglow_rows_are_scalar_calls_witness :
  exists cont_of line_of : R -> list R,
    (forall v,
       fst (get_airglow example_collaborators example_lam (scalar v)
              p_default H_default true true true example_store)
       = Ok (NDArray [5%nat] (cont_of v), NDArray [5%nat] (line_of v))) /\
    fst (get_airglow example_collaborators example_lam
           (NDArray [3; 1]%nat [0; 10; 20]) p_default H_default
           true true true example_store)
    = Ok (NDArray [3; 5]%nat (flat_map cont_of [0; 10; 20]),
          NDArray [3; 5]%nat (flat_map line_of [0; 10; 20])).
Proof.
  exact (get_airglow_rows_are_scalar_calls example_collaborators
           example_store _ _ _ _ example_lam [3%nat] [0; 10; 20]
           p_default H_default true true
           example_table_in example_lam_grid eq_refl).
Defined.

(** X6.  The index array of the compressed path leads back to [z]:
    taking the rows [idx_out] of the column of distinct values gives
    the array [z] itself, and no index is out of bounds, whatever [z]
    holds. *)
Theorem idx_out_restores_z (S : list nat) (zs : list R) (h : store) :
  let z := NDArray (S ++ [1%nat]) zs in
  let z_unique := np_unique z in
  np_squeeze_last z h = (Ok (NDArray S zs), h) /\
  np_take (reshape_column z_unique)
    (np_searchsorted z_unique (NDArray S zs)) = Ok z.
Proof.
  cbv zeta. split.
  - unfold np_squeeze_last. cbn [shape data].
    rewrite rev_app_distr. cbn [rev app Nat.eqb].
    now rewrite rev_involutive.
  - set (z := NDArray (S ++ [1%nat]) zs).
    assert (Hmem : forall v, In v zs ->
              (searchsorted1 (data (np_unique z)) v
               < length (data (np_unique z)))%nat /\
              nth (searchsorted1 (data (np_unique z)) v)
                (data (np_unique z)) 0 = v).
    { intros v Hv. apply searchsorted1_member.
      - apply np_unique_sorted.
      - apply np_unique_In. exact Hv. }
    unfold reshape_column, np_searchsorted.
    rewrite np_unique_size.
    rewrite <- (map_id (data (np_unique z))) at 2.
    rewrite (map_as_rows (fun u => u)).
    change [length (data (np_unique z)); 1%nat]
      with ([length (data (np_unique z))] ++ [1%nat]).
    rewrite (np_take_rows (length (data (np_unique z))) 1).
    + cbn [np_map shape data]. subst z. do 2 f_equal.
      rewrite flat_map_concat_map, map_map, <- flat_map_concat_map.
      transitivity (flat_map (fun u : R => [u]) zs).
      * apply flat_map_ext_in. intros v Hv.
        now rewrite (proj2 (Hmem v Hv)).
      * rewrite <- (map_as_rows (fun u => u)). apply map_id.
    + reflexivity.
    + reflexivity.
    + cbn [np_map data]. apply Forall_forall. intros i Hi.
      apply in_map_iff in Hi. destruct Hi as [v [<- Hv]].
      apply (Hmem v Hv).
Qed.

Lemma insert_sorted_length (x : R) (l : list R) :
  length (insert_sorted x l) = Datatypes.S (length l).
Proof.
  induction l as [| y l IH]; [reflexivity |].
  cbn [insert_sorted]. destruct (Rle_dec x y); cbn [length]; [reflexivity |].
  now rewrite IH.
Qed.

Lemma insert_sorted_NoDup (x : R) (l : list R) :
  ~ In x l -> NoDup l -> NoDup (insert_sorted x l).
Proof.
  intros Hx Hl. induction Hl as [| y l Hy Hl IH].
  - cbn [insert_sorted]. constructor; [intros [] | constructor].
  - cbn [insert_sorted]. destruct (Rle_dec x y).
    + constructor; [assumption | now constructor].
    + constructor.
      * rewrite insert_sorted_In. intros [-> | Hin]; [| contradiction].
        apply Hx. now left.
      * apply IH. intros Hin. apply Hx. now right.
Qed.

Lemma np_sort_length (l : list R) : length (np_sort l) = length l.
Proof.
  induction l as [| x l IH]; [reflexivity |].
  cbn [np_sort fold_right]. fold (np_sort l).
  now rewrite insert_sorted_length, IH.
Qed.

Lemma np_sort_NoDup (l : list R) : NoDup l -> NoDup (np_sort l).
Proof.
  induction 1 as [| x l Hx Hl IH]; [constructor |].
  cbn [np_sort fold_right]. fold (np_sort l).
  apply insert_sorted_NoDup; [| assumption].
  now rewrite np_sort_In.
Qed.

Lemma drop_repeats_NoDup (l : list R) : NoDup l -> drop_repeats l = l.
Proof.
  induction 1 as [| x l Hx Hl IH]; [reflexivity |].
  cbn [drop_repeats]. destruct l as [| y l]; [reflexivity |].
  destruct (Req_dec_T x y) as [-> | _].
  - exfalso. apply Hx. now left.
  - now rewrite IH.
Qed.

Lemma np_unique_NoDup (z : ndarray R) :
  wf z -> NoDup (data z) -> size (np_unique z) = size z.
Proof.
  intros Hwf Hnd. rewrite np_unique_size. unfold np_unique. cbn [data].
  rewrite drop_repeats_NoDup by now apply np_sort_NoDup.
  rewrite np_sort_length. exact Hwf.
Qed.

(** X7.  Compression needs repetition: a [z] whose values are pairwise
    distinct, and so every scalar, every array of one element and the
    empty array, takes the direct evaluation, and the assertion on the
    trailing axis is not reached. *)
Theorem get_airglow_distinct_angles_direct (E : collaborators)
    (lam z : ndarray R) (p H : R) (Rayleigh Mie absorption : bool)
    (h : store) (Hwf : wf z) (Hnd : NoDup (data z)) :
  get_airglow E lam z p H Rayleigh Mie absorption h
  = get_airglow_direct E lam z p H Rayleigh Mie absorption h.
Proof.
  apply get_airglow_uncompressed.
  rewrite np_unique_NoDup by assumption.
  apply Nat.ltb_ge. lia.
Qed.

Lemma get_airglow_distinct_angles_direct_witness :
  get_airglow example_collaborators example_lam
    (NDArray [3%nat] [10; 20; 30]) p_default H_default true true true
    example_store
  = get_airglow_direct example_collaborators example_lam
      (NDArray [3%nat] [10; 20; 30]) p_default H_default true true true
      example_store.
Proof.
  apply (get_airglow_distinct_angles_direct example_collaborators
           example_lam (NDArray [3%nat] [10; 20; 30]) p_default H_default
           true true true example_store).
  - reflexivity.
  - cbn [data]. repeat constructor; cbn [In]; intros Hin;
      repeat destruct Hin as [Hin | Hin]; try lra; assumption.
Defined.

(** X8.  Scattering without absorption works for one row of angles
    only: for a [z] of two or more axes whose trailing axis has one
    element, with absorption off and Rayleigh or Mie on, the in-place
    update of [tau0] raises a ValueError on either path. *)
Theorem scattering_without_absorption_raises (E : collaborators)
    (h : store) (wl ct ln tm : list R) (lam : ndarray R) (S : list nat)
    (zs : list R) (p H : R) (Rayleigh Mie : bool)
    (Htbl : table_in E h wl ct ln tm)
    (Hlam : grid lam)
    (HS : S <> [])
    (Hzs : length zs = prod_shape S)
    (HRM : Rayleigh || Mie = true) :
  fst (get_airglow E lam (NDArray (S ++ [1%nat]) zs) p H
         Rayleigh Mie false h)
  = Raise (ValueError "non-broadcastable output operand").
Proof.
  destruct (4 * size (np_unique (NDArray (S ++ [1%nat]) zs))
            <? 3 * size (NDArray (S ++ [1%nat]) zs))%nat eqn:Hc.
  - rewrite get_airglow_compressed by assumption.
    apply fst_bind_raise.
    rewrite np_atleast_1d_grid by assumption.
    apply (airglow_fluxes_scattering_rejected E h wl ct ln tm);
      try assumption; [discriminate | cbn [prod_shape]; lia].
  - rewrite get_airglow_uncompressed by assumption.
    unfold get_airglow_direct, np_asarray. cbv zeta.
    rewrite np_atleast_1d_grid by assumption.
    now apply (airglow_fluxes_scattering_rejected E h wl ct ln tm).
Qed.

Lemma scattering_without_absorption_raises_witness :
  fst (get_airglow example_collaborators example_lam
         (NDArray [3; 1]%nat [0; 10; 20]) p_default H_default
         true true false example_store)
  = Raise (ValueError "non-broadcastable output operand").
Proof.
  refine (scattering_without_absorption_raises example_collaborators
            example_store _ _ _ _ example_lam [3%nat] [0; 10; 20]
            p_default H_default true true
            example_table_in example_lam_grid _ eq_refl eq_refl).
  discriminate.
Defined.

(** X9.  The work grows with the distinct angles only: with absorption
    and scattering on, the one array the call adds to the store,
    [tau0], has a row for every distinct value of [z] on the compressed
    path and a row for every element of [z] otherwise. *)
Theorem tau0_has_one_row_per_distinct_angle (E : collaborators)
    (h : store) (wl ct ln tm : list R) (lam : ndarray R) (S : list nat)
    (zs : list R) (p H : R) (Rayleigh Mie : bool)
    (Htbl : table_in E h wl ct ln tm)
    (Hlam : grid lam)
    (Hzs : length zs = prod_shape S)
    (HRM : Rayleigh || Mie = true) :
  let z := NDArray (S ++ [1%nat]) zs in
  exists tau0,
    snd (get_airglow E lam z p H Rayleigh Mie true h) = h ++ [tau0] /\
    shape tau0 =
      (if (4 * size (np_unique z) <? 3 * size z)%nat
       then [size (np_unique z)] else S) ++ [length (data lam)].
Proof.
  cbv zeta.
  destruct (4 * size (np_unique (NDArray (S ++ [1%nat]) zs))
            <? 3 * size (NDArray (S ++ [1%nat]) zs))%nat eqn:Hc.
  - rewrite get_airglow_compressed by assumption.
    rewrite np_atleast_1d_grid by assumption.
    set (us := data (np_unique (NDArray (S ++ [1%nat]) zs))).
    assert (Hus : length us = prod_shape [length us])
      by (cbn [prod_shape]; lia).
    erewrite bind_run.
    2:{ apply (airglow_fluxes_rows E h wl ct ln tm Htbl (data lam)
                 ([length us] ++ [1%nat]) [length us] us
                 (or_introl eq_refl) Hus p H Rayleigh Mie true
                 (or_introl eq_refl)). }
    rewrite HRM. cbv beta iota.
    assert (Hmem : forall v, In v zs ->
              (searchsorted1 us v < length us)%nat /\
              nth (searchsorted1 us v) us 0 = v).
    { intros v Hv. apply searchsorted1_member.
      - apply np_unique_sorted.
      - apply np_unique_In. exact Hv. }
    rewrite !(np_take_rows (length us) (length (data lam))) by
      (try (intros; apply flux_row_length);
       try reflexivity; cbn [data];
       apply Forall_forall; intros i Hi; apply in_map_iff in Hi;
       destruct Hi as [v [<- Hv]]; apply (Hmem v Hv)).
    rewrite !bind_lift_Ok. cbn [snd ret].
    eexists. split; [reflexivity |].
    cbn [shape]. now rewrite np_unique_size.
  - rewrite get_airglow_uncompressed by assumption.
    unfold get_airglow_direct, np_asarray. cbv zeta.
    rewrite np_atleast_1d_grid by assumption.
    rewrite (airglow_fluxes_rows E h wl ct ln tm Htbl (data lam)
               (S ++ [1%nat]) S zs (or_introl eq_refl) Hzs
               p H Rayleigh Mie true (or_introl eq_refl)).
    rewrite HRM. cbn [snd].
    eexists. split; reflexivity.
Qed.

Lemma tau0_has_one_row_per_distinct_angle_witness :
  exists tau0,
    snd (get_airglow example_collaborators example_lam
           (NDArray [3; 1]%nat [0; 0; 0]) p_default H_default
           true true true example_store) = example_store ++ [tau0] /\
    shape tau0 = [1; 5]%nat.
Proof.
  pose proof (tau0_has_one_row_per_distinct_angle example_collaborators
                example_store _ _ _ _ example_lam [3%nat] [0; 0; 0]
                p_default H_default true true
                example_table_in example_lam_grid eq_refl eq_refl) as Hx.
  cbv zeta in Hx. rewrite np_unique_same3 in Hx. exact Hx.
Defined.
